(** * DocuBot: ingestion, retrieval and the conversation loop

    A shallow embedding of [notebooks/DocuBot.ipynb].  The notebook's own
    functions ([split_input_to_chunks], [text_embedding],
    [get_text_embedding_pairs], the [DataStore] methods and the chat loop) are
    transcribed statement by statement into a state-and-exception monad.
    The libraries they call (llama-index, Vertex AI, psycopg2, pgvector,
    PostgreSQL) are not part of the repository: the pure parts are taken as
    parameters ([External]), the stateful parts are small executable models
    of the documented library behaviour, and every external call can be made
    to fail through the [faults] script carried by the world. *)

From Stdlib Require Import ZArith.
From stdpp Require Import base option list strings pretty gmap sorting.

(** ** Text

    A [string] stands for a Python [str] whose code points are below 256. *)

Definition nl : string := String (Ascii.ascii_of_nat 10) "".

(** [sep.join(parts)] *)
Fixpoint join (sep : string) (parts : list string) : string :=
  match parts with
  | [] => ""
  | p :: rest =>
      match rest with
      | [] => p
      | _ :: _ => p +:+ sep +:+ join sep rest
      end
  end.

(** [str.isspace] on one character: TAB..CR, FS..US, space, NEL, NBSP. *)
Definition isspace (c : Ascii.ascii) : bool :=
  let n := Ascii.nat_of_ascii c in
  ((9 <=? n) && (n <=? 13)) || ((28 <=? n) && (n <=? 32))
  || (n =? 133) || (n =? 160).

Fixpoint lstrip (s : string) : string :=
  match s with
  | EmptyString => ""
  | String c s' => if isspace c then lstrip s' else s
  end.

Fixpoint rstrip (s : string) : string :=
  match s with
  | EmptyString => ""
  | String c s' =>
      match rstrip s' with
      | EmptyString => if isspace c then "" else String c ""
      | r => String c r
      end
  end.

(** [s.strip()] *)
Definition strip (s : string) : string := rstrip (lstrip s).

(** [prompt_template.format(query = ..., context = ...)] with
    [prompt_template =
     "Refer to the following context to answer this query: {query}\n\nContext: {context}"] *)
Definition prompt_template_format (query context : string) : string :=
  "Refer to the following context to answer this query: " +:+ query
  +:+ nl +:+ nl +:+ "Context: " +:+ context.

(** ** Exceptions and the monad of Python statements *)

Inductive exn : Type :=
  | PoolError (msg : string)          (* psycopg2.pool.PoolError *)
  | DatabaseError (msg : string)      (* psycopg2.Error and its subclasses *)
  | ServiceError (msg : string)       (* a failed Vertex AI request *)
  | ValueError (msg : string)         (* raised by the splitter or its tokenizer *)
  | UnboundLocalError (name : string)
  | EOFError.


(** [str(e)], what an f-string interpolates for [{e}]. *)
Definition exn_str (e : exn) : string :=
  match e with
  | PoolError msg | DatabaseError msg | ServiceError msg | ValueError msg => msg
  | UnboundLocalError name =>
      "cannot access local variable '" +:+ name
      +:+ "' where it is not associated with a value"
  | EOFError => "EOF when reading a line"
  end.

Inductive Result (A : Type) : Type :=
  | Return (a : A)
  | Raise (e : exn).
Arguments Return {A} a.
Arguments Raise {A} e.

(** A statement running on a state [S]: it ends normally with a value or
    raises, and in both cases leaves a state behind. *)
Definition Py (S A : Type) : Type := S → Result A * S.

Definition ret {S A} (a : A) : Py S A := λ s, (Return a, s).
Definition raise {S A} (e : exn) : Py S A := λ s, (Raise e, s).
Definition bind {S A B} (m : Py S A) (k : A → Py S B) : Py S B :=
  λ s, match m s with
       | (Return a, s') => k a s'
       | (Raise e, s') => (Raise e, s')
       end.

Notation "'let!' x ':=' m 'in' k" := (bind m (λ x, k))
  (at level 10, x name, m at level 100, k at level 200,
   format "'[v' 'let!'  x  ':='  m  'in' '/' k ']'").
Notation "m '>>' k" := (bind m (λ _, k))
  (at level 100, k at level 200, right associativity).

(** [try: body / except Exception as e: handler e / finally: fin].
    An exception raised by [fin] replaces whatever was in flight. *)
Definition try_except_finally {S A}
    (body : Py S A) (handler : exn → Py S A) (fin : Py S unit) : Py S A :=
  λ s,
    let '(r, s1) := body s in
    let '(r', s2) := match r with
                     | Return a => (Return a, s1)
                     | Raise e => handler e s1
                     end in
    match fin s2 with
    | (Return _, s3) => (r', s3)
    | (Raise e', s3) => (Raise e', s3)
    end.

(** [for x in xs: ys.append(f(x))] *)
Fixpoint for_each {S A B} (f : A → Py S B) (xs : list A) : Py S (list B) :=
  match xs with
  | [] => ret []
  | x :: xs' =>
      let! y := f x in
      let! ys := for_each f xs' in
      ret (y :: ys)
  end.

(** ** The splitter's documents and nodes (llama-index) *)

(** The keyword arguments [SentenceSplitter] is built with. *)
Record SentenceSplitter : Type := {
  separator : string;
  chunk_size : nat;
  chunk_overlap : nat;
  paragraph_separator : string;
  secondary_chunking_regex : string;
  tokenizer : string;                (* the model whose encoding is used *)
}.

(** [Document] and [TextNode] each carry an identifier drawn afresh when the
    object is built. *)
Record Document : Type := { doc_id_ : nat; doc_text : string }.
Record TextNode : Type := { id_ : nat; ref_doc_id : nat; node_text : string }.

(** ** The connection pool (psycopg2.pool.SimpleConnectionPool)

    [idle] is the pool's [_pool] list with its end at the head ([pop] takes
    the head, [append] conses); [used] holds the connections handed out
    ([_used]); [opened] counts the connections opened so far and names the
    next one.  The notebook never closes the pool. *)

Definition Conn : Type := nat.

Record Pool : Type := {
  minconn : nat;
  maxconn : nat;
  idle : list Conn;
  used : list Conn;
  opened : nat;
}.

Fixpoint remove_first (c : Conn) (l : list Conn) : list Conn :=
  match l with
  | [] => []
  | x :: l' => if x =? c then l' else x :: remove_first c l'
  end.

(** ** Tables *)

Inductive sql_type : Type :=
  | SERIAL_PRIMARY_KEY
  | VARCHAR
  | VECTOR (dim : nat).

Definition show_sql_type (t : sql_type) : string :=
  match t with
  | SERIAL_PRIMARY_KEY => "SERIAL PRIMARY KEY"
  | VARCHAR => "varchar"
  | VECTOR dim => "vector(" +:+ pretty dim +:+ ")"
  end.

Definition is_vector (t : sql_type) : bool :=
  match t with VECTOR _ => true | _ => false end.

Fixpoint lookup_col (name : string) (cols : list (string * sql_type))
    : option sql_type :=
  match cols with
  | [] => None
  | (n, t) :: cols' => if String.eqb n name then Some t else lookup_col name cols'
  end.

(** [_paginate(seq, page_size)] of psycopg2.extras: full pages, then the
    rest if there is one.  [k] bounds the number of pages. *)
Fixpoint pages {A} (page_size k : nat) (l : list A) : list (list A) :=
  match k with
  | 0 => []
  | S k' =>
      match l with
      | [] => []
      | _ :: _ => take page_size l :: pages page_size k' (drop page_size l)
      end
  end.

Definition paginate {A} (l : list A) (page_size : nat) : list (list A) :=
  pages page_size (length l) l.

(** ** The notebook's constants *)

(** [DataStore.DATABASE_SCHEMA], in the order of the dict, and
    [DataStore.TABLE_NAME]. *)
Definition DATABASE_SCHEMA : list (string * sql_type) :=
  [("text_chunk", VARCHAR); ("embedding", VECTOR 768)].

Definition TABLE_NAME : string := "my_table".

Section Model.

(** The type of a Python [float]; an embedding is a [list float]. *)
Context {float : Type}.

(** [class TextEmbedding(BaseModel)] *)
Record TextEmbedding : Type := { te_text : string; te_embedding : list float }.

(** A stored row of the table [_create_table] makes. *)
Record Row : Type := {
  row_id : Z;
  row_text_chunk : string;
  row_embedding : list float;
}.

(** [tbl_rows] is in insertion order; [tbl_seq] names the sequence behind
    the SERIAL column. *)
Record Table : Type := {
  tbl_cols : list (string * sql_type);
  tbl_seq : nat;
  tbl_rows : list Row;
}.

Record Database : Type := {
  extensions : gset string;
  tables : gmap string Table;
}.

(** The statements the notebook's query strings consist of. *)
Inductive Sql : Type :=
  | CreateExtensionIfNotExists (name : string)
  | DropTableIfExists (table : string)
  | CreateTableIfNotExists (table : string) (cols : list (string * sql_type))
  | InsertValues (table : string) (col_names : list string)
                 (values : list (string * list float))
  | SelectOrderByDistanceLimit (col table order_col : string)
                               (q : list float) (limit : nat)
  | SelectVectorType.

(** What an operation does to the outside, in the order it does it. *)
Inductive Event : Type :=
  | EvConnect
  | EvGetconn (c : Conn)
  | EvPutconn (c : Conn)
  | EvBegin
  | EvExecute (script : list Sql)
  | EvCommit
  | EvRollback
  | EvEmbed (texts : list string)
  | EvChat (message : string)
  | EvLog (level message : string)
  | EvPrint (s : string).

(** The state the notebook runs on.  [committed] is what the database holds
    durably, [txn] the working copy of the transaction open on the
    connection in use; [sequences] are outside transactions, as in
    PostgreSQL; [faults] scripts the outcome of the external calls to come
    ([Some e]: the call raises [e]). *)
Record World : Type := {
  conn_pool : Pool;
  committed : Database;
  txn : option Database;
  sequences : list Z;
  trace : list Event;
  faults : list (option exn);
  next_uuid : nat;
  chat_session : list (string * string);
  chat_history : list string;
}.

Definition set_conn_pool (v : Pool) (w : World) : World :=
  {| conn_pool := v;
     committed := committed w;
     txn := txn w;
     sequences := sequences w;
     trace := trace w;
     faults := faults w;
     next_uuid := next_uuid w;
     chat_session := chat_session w;
     chat_history := chat_history w |}.

Definition set_committed (v : Database) (w : World) : World :=
  {| conn_pool := conn_pool w;
     committed := v;
     txn := txn w;
     sequences := sequences w;
     trace := trace w;
     faults := faults w;
     next_uuid := next_uuid w;
     chat_session := chat_session w;
     chat_history := chat_history w |}.

Definition set_txn (v : option Database) (w : World) : World :=
  {| conn_pool := conn_pool w;
     committed := committed w;
     txn := v;
     sequences := sequences w;
     trace := trace w;
     faults := faults w;
     next_uuid := next_uuid w;
     chat_session := chat_session w;
     chat_history := chat_history w |}.

Definition set_sequences (v : list Z) (w : World) : World :=
  {| conn_pool := conn_pool w;
     committed := committed w;
     txn := txn w;
     sequences := v;
     trace := trace w;
     faults := faults w;
     next_uuid := next_uuid w;
     chat_session := chat_session w;
     chat_history := chat_history w |}.

Definition set_trace (v : list Event) (w : World) : World :=
  {| conn_pool := conn_pool w;
     committed := committed w;
     txn := txn w;
     sequences := sequences w;
     trace := v;
     faults := faults w;
     next_uuid := next_uuid w;
     chat_session := chat_session w;
     chat_history := chat_history w |}.

Definition set_faults (v : list (option exn)) (w : World) : World :=
  {| conn_pool := conn_pool w;
     committed := committed w;
     txn := txn w;
     sequences := sequences w;
     trace := trace w;
     faults := v;
     next_uuid := next_uuid w;
     chat_session := chat_session w;
     chat_history := chat_history w |}.

Definition set_next_uuid (v : nat) (w : World) : World :=
  {| conn_pool := conn_pool w;
     committed := committed w;
     txn := txn w;
     sequences := sequences w;
     trace := trace w;
     faults := faults w;
     next_uuid := v;
     chat_session := chat_session w;
     chat_history := chat_history w |}.

Definition set_chat_session (v : list (string * string)) (w : World) : World :=
  {| conn_pool := conn_pool w;
     committed := committed w;
     txn := txn w;
     sequences := sequences w;
     trace := trace w;
     faults := faults w;
     next_uuid := next_uuid w;
     chat_session := v;
     chat_history := chat_history w |}.

Definition set_chat_history (v : list string) (w : World) : World :=
  {| conn_pool := conn_pool w;
     committed := committed w;
     txn := txn w;
     sequences := sequences w;
     trace := trace w;
     faults := faults w;
     next_uuid := next_uuid w;
     chat_session := chat_session w;
     chat_history := v |}.

(** The parameters: what the libraries and services compute. *)
Class External : Type := {
  (* SentenceSplitter.split_text: the chunks of a text, or an exception *)
  split_text : SentenceSplitter → string → Result (list string);
  (* TextEmbeddingModel.get_embeddings: the [values] of each embedding *)
  get_embeddings : list string → list (list float);
  (* ChatSession.send_message: the [text] of the response, given the
     session so far *)
  response_text : list (string * string) → string → string;
  (* pgvector's [<->] and the order on its results *)
  l2_distance : list float → list float → float;
  fle : float → float → bool;
  (* PostgreSQL's ORDER BY *)
  order_by : ∀ A : Type, (A → float) → list A → list A;
}.

Context {ext : External}.

(** *** Primitives *)

Definition emit (ev : Event) : Py World unit :=
  λ w, (Return (), set_trace (trace w ++ [ev]) w).

(** One call that leaves the process: the next entry of the script decides. *)
Definition external : Py World unit :=
  λ w, match faults w with
       | [] => (Return (), w)
       | None :: rest => (Return (), set_faults rest w)
       | Some e :: rest => (Raise e, set_faults rest w)
       end.

Definition logger_info (message : string) : Py World unit :=
  emit (EvLog "INFO" message).
Definition logger_error (message : string) : Py World unit :=
  emit (EvLog "ERROR" message).

(** [print(s)] *)
Definition print (s : string) : Py World unit := emit (EvPrint (s +:+ nl)).

Definition fresh_id : Py World nat :=
  λ w, (Return (next_uuid w), set_next_uuid (S (next_uuid w)) w).

(** *** 1.1 Split text to chunks *)

(** [Document(text = input_text)] *)
Definition new_Document (input_text : string) : Py World Document :=
  let! i := fresh_id in
  ret {| doc_id_ := i; doc_text := input_text |}.

(** One node per split, each with an identifier of its own. *)
Definition build_node (doc : Document) (split : string) : Py World TextNode :=
  let! i := fresh_id in
  ret {| id_ := i; ref_doc_id := doc_id_ doc; node_text := split |}.

(** [text_splitter(documents)]: the nodes of every document, in order. *)
Definition SentenceSplitter_call (text_splitter : SentenceSplitter)
    (documents : list Document) : Py World (list TextNode) :=
  let! nodes :=
    for_each (λ doc,
      match split_text text_splitter (doc_text doc) with
      | Return splits => for_each (build_node doc) splits
      | Raise e => raise e
      end) documents in
  ret (concat nodes).

Definition split_input_to_chunks (input_text : string) : Py World (list string) :=
  (* Parsing text with a preference for complete sentences *)
  let text_splitter :=
    {| separator := " ";
       chunk_size := 300;
       chunk_overlap := 20;
       paragraph_separator := nl +:+ nl;
       secondary_chunking_regex := "[^,.;。]+[,.;。]?";
       tokenizer := "gpt-3.5-turbo" |} in
  let! txt_doc := new_Document input_text in
  (* Split the text into chunks *)
  let! chunks := SentenceSplitter_call text_splitter [txt_doc] in
  ret (node_text <$> chunks).

(** *** 1.2 Generate text embeddings *)

(** [TextEmbeddingModel.from_pretrained(name)] *)
Definition from_pretrained (name : string) : Py World unit := external.

(** [model.get_embeddings(texts)], reduced to the [values] of the result. *)
Definition model_get_embeddings (texts : list string)
    : Py World (list (list float)) :=
  emit (EvEmbed texts) >> external >> ret (get_embeddings texts).

(** The [for] loop leaves the last embedding's values in [vector]; over an
    empty result [vector] is never bound. *)
Definition text_embedding (text : string) : Py World (list float) :=
  from_pretrained "textembedding-gecko@001" >>
  let! embeddings := model_get_embeddings [text] in
  match last embeddings with
  | Some vector => ret vector
  | None => raise (UnboundLocalError "vector")
  end.

(** *** 1.3 Text, embedding pairs for all chunks *)

Definition get_text_embedding_pairs (text : string)
    : Py World (list TextEmbedding) :=
  let! chunks := split_input_to_chunks text in
  logger_info ("Number of chunks generated: " +:+ pretty (length chunks)) >>
  for_each (λ curr_chunk,
    let! curr_embedding := text_embedding curr_chunk in
    ret {| te_text := curr_chunk; te_embedding := curr_embedding |}) chunks.

(** *** The pool *)

(** [_connect()] without a key, as the constructor calls it. *)
Fixpoint open_idle (n : nat) (p : Pool) : Py World Pool :=
  match n with
  | 0 => ret p
  | S n' =>
      external >> emit EvConnect >>
      open_idle n' {| minconn := minconn p; maxconn := maxconn p;
                      idle := opened p :: idle p; used := used p;
                      opened := S (opened p) |}
  end.

(** [psycopg2.pool.SimpleConnectionPool(minconn, maxconn, ...)] *)
Definition SimpleConnectionPool (minconn maxconn : nat) : Py World Pool :=
  open_idle minconn {| minconn := minconn; maxconn := maxconn;
                       idle := []; used := []; opened := 0 |}.

Definition set_pool (p : Pool) : Py World unit :=
  λ w, (Return (), set_conn_pool p w).

(** [conn_pool.getconn()]: an idle connection if there is one; otherwise a
    new one, unless [maxconn] are in use already, which raises at once. *)
Definition getconn : Py World Conn :=
  λ w,
    let p := conn_pool w in
    match idle p with
    | c :: rest =>
        (set_pool {| minconn := minconn p; maxconn := maxconn p;
                     idle := rest; used := c :: used p; opened := opened p |} >>
         emit (EvGetconn c) >> ret c) w
    | [] =>
        if length (used p) =? maxconn p
        then (Raise (PoolError "connection pool exhausted"), w)
        else
          let c := opened p in
          (external >> emit EvConnect >>
           set_pool {| minconn := minconn p; maxconn := maxconn p;
                       idle := []; used := c :: used p;
                       opened := S (opened p) |} >>
           emit (EvGetconn c) >> ret c) w
    end.

(** [conn_pool.putconn(c)]: a connection the pool did not hand out is
    refused; otherwise it is kept idle (rolled back if a transaction was
    left open) while fewer than [minconn] are idle, closed if not, and in
    both cases taken out of the used ones. *)
Definition putconn (c : Conn) : Py World unit :=
  λ w,
    let p := conn_pool w in
    if bool_decide (c ∈ used p)
    then
      (set_pool {| minconn := minconn p; maxconn := maxconn p;
                   idle := if length (idle p) <? minconn p
                           then c :: idle p else idle p;
                   used := remove_first c (used p); opened := opened p |} >>
       emit (EvPutconn c)) (set_txn None w)
    else (Raise (PoolError "trying to put unkeyed connection"), w).

(** *** The database *)

Definition working (w : World) : Database := default (committed w) (txn w).

Definition set_working (d : Database) (w : World) : World := set_txn (Some d) w.

Definition with_table (name : string) (tb : Table) (d : Database) : Database :=
  {| extensions := extensions d; tables := <[name := tb]> (tables d) |}.

(** The rows an INSERT adds: the SERIAL column draws [start], [start + 1], ... *)
Definition new_rows (start : Z) (values : list (string * list float)) : list Row :=
  imap (λ i v, {| row_id := start + Z.of_nat i;
                  row_text_chunk := v.1; row_embedding := v.2 |}) values.

(** One statement on the working copy. *)
Definition exec_stmt (s : Sql) : Py World (list (list string)) :=
  λ w,
    let d := working w in
    match s with
    | CreateExtensionIfNotExists name =>
        (Return [],
         set_working {| extensions := {[name]} ∪ extensions d;
                        tables := tables d |} w)
    | DropTableIfExists table =>
        (Return [],
         set_working {| extensions := extensions d;
                        tables := delete table (tables d) |} w)
    | CreateTableIfNotExists table cols =>
        match tables d !! table with
        | Some _ => (Return [], w)
        | None =>
            if existsb (λ col, is_vector col.2) cols
               && negb (bool_decide ("vector" ∈ extensions d))
            then (Raise (DatabaseError "type vector does not exist"), w)
            else
              (Return [],
               set_sequences (sequences w ++ [1%Z])
                 (set_working
                    (with_table table
                       {| tbl_cols := cols; tbl_seq := length (sequences w);
                          tbl_rows := [] |} d) w))
        end
    | InsertValues table col_names values =>
        match tables d !! table with
        | None => (Raise (DatabaseError "relation does not exist"), w)
        | Some tb =>
            match col_names with
            | [ctext; cvec] =>
                match lookup_col ctext (tbl_cols tb), lookup_col cvec (tbl_cols tb) with
                | Some VARCHAR, Some (VECTOR dim) =>
                    if forallb (λ v, length v.2 =? dim) values
                    then
                      let start := default 1%Z (sequences w !! tbl_seq tb) in
                      (Return [],
                       set_sequences
                         (<[tbl_seq tb := (start + Z.of_nat (length values))%Z]>
                            (sequences w))
                         (set_working
                            (with_table table
                               {| tbl_cols := tbl_cols tb; tbl_seq := tbl_seq tb;
                                  tbl_rows := tbl_rows tb ++ new_rows start values |}
                               d) w))
                    else (Raise (DatabaseError "wrong number of dimensions"), w)
                | _, _ => (Raise (DatabaseError "column mismatch"), w)
                end
            | _ => (Raise (DatabaseError "column mismatch"), w)
            end
        end
    | SelectOrderByDistanceLimit col table order_col q limit =>
        match tables d !! table with
        | None => (Raise (DatabaseError "relation does not exist"), w)
        | Some tb =>
            match lookup_col col (tbl_cols tb), lookup_col order_col (tbl_cols tb) with
            | Some VARCHAR, Some (VECTOR dim) =>
                if forallb (λ r, length (row_embedding r) =? length q) (tbl_rows tb)
                then
                  (Return
                     ((λ r, [row_text_chunk r]) <$>
                        take limit
                          (order_by Row (λ r, l2_distance (row_embedding r) q)
                             (tbl_rows tb))), w)
                else (Raise (DatabaseError "different vector dimensions"), w)
            | _, _ => (Raise (DatabaseError "column mismatch"), w)
            end
        end
    | SelectVectorType =>
        if bool_decide ("vector" ∈ extensions d)
        then (Return [["vector"]], w)
        else (Raise (DatabaseError "vector type not found in the database"), w)
    end.

(** The statements of one query string, in order; the rows of the last. *)
Fixpoint run_script (script : list Sql) (rows : list (list string))
    : Py World (list (list string)) :=
  match script with
  | [] => ret rows
  | s :: script' =>
      let! rows' := exec_stmt s in
      run_script script' rows'
  end.

(** psycopg2 opens a transaction with the first statement sent. *)
Definition begin : Py World unit :=
  λ w, match txn w with
       | Some _ => (Return (), w)
       | None => emit EvBegin (set_txn (Some (committed w)) w)
       end.

(** [cursor.execute(query)] followed by [cursor.fetchall()]. *)
Definition cursor_execute (script : list Sql) : Py World (list (list string)) :=
  begin >> emit (EvExecute script) >> external >> run_script script [].

(** [connection.commit()]: nothing to do outside a transaction; a commit
    that fails leaves nothing behind. *)
Definition commit : Py World unit :=
  λ w, match txn w with
       | None => (Return (), w)
       | Some d =>
           match external (set_txn None w) with
           | (Return _, w') => emit EvCommit (set_committed d w')
           | (Raise e, w') => (Raise e, w')
           end
       end.

(** [connection.rollback()] *)
Definition rollback : Py World unit :=
  λ w, match txn w with
       | None => (Return (), w)
       | Some _ => (emit EvRollback >> external) (set_txn None w)
       end.

(** [psycopg2.extras.execute_values(cursor, query, argslist)] with its
    default [page_size] of 100: one INSERT per page. *)
Fixpoint execute_pages (table : string) (col_names : list string)
    (pgs : list (list (string * list float))) : Py World unit :=
  match pgs with
  | [] => ret ()
  | page :: pgs' =>
      cursor_execute [InsertValues table col_names page] >>
      execute_pages table col_names pgs'
  end.

Definition execute_values (table : string) (col_names : list string)
    (argslist : list (string * list float)) : Py World unit :=
  execute_pages table col_names (paginate argslist 100).

(** [pgvector.psycopg2.register_vector(connection)] looks the type up. *)
Definition register_vector : Py World unit :=
  cursor_execute [SelectVectorType] >> ret ().

(** *** Method bodies: the local variable [connection] *)

(** The frame of a [DataStore] method: its local [connection], unbound
    until assigned, next to the world. *)
Record Frame : Type := { connection : option Conn; world : World }.

Definition lift {A} (m : Py World A) : Py Frame A :=
  λ fr, let '(r, w) := m (world fr) in
        (r, {| connection := connection fr; world := w |}).

(** Calling a method: a fresh frame, dropped when the method is left. *)
Definition call {A} (m : Py Frame A) : Py World A :=
  λ w, let '(r, fr) := m {| connection := None; world := w |} in
       (r, world fr).

(** [connection = c] *)
Definition store_connection (c : Conn) : Py Frame unit :=
  λ fr, (Return (), {| connection := Some c; world := world fr |}).

(** Reading [connection] *)
Definition load_connection : Py Frame Conn :=
  λ fr, match connection fr with
        | Some c => (Return c, fr)
        | None => (Raise (UnboundLocalError "connection"), fr)
        end.

(** [with connection: body]: commit when the body ends normally, roll back
    and let the exception through when it raises. *)
Definition with_connection {A} (body : Py Frame A) : Py Frame A :=
  load_connection >>
  λ fr, match body fr with
        | (Return a, fr') => (lift commit >> ret a) fr'
        | (Raise e, fr') => (lift rollback >> raise e) fr'
        end.

(** [with connection.cursor() as cursor: body] *)
Definition with_cursor {A} (body : Py Frame A) : Py Frame A :=
  load_connection >> body.

(** *** 2. The data store *)

Definition _get_connection_pool : Py World Pool := SimpleConnectionPool 1 10.

Definition indent : string := "            ".

(** The text of [table_creation_query] and the statements it consists of. *)
Definition table_creation_query (cols : string) : string :=
  nl +:+ indent +:+ "CREATE EXTENSION IF NOT EXISTS vector;"
  +:+ nl +:+ indent +:+ "DROP TABLE IF EXISTS " +:+ TABLE_NAME +:+ ";"
  +:+ nl +:+ indent +:+ "CREATE TABLE IF NOT EXISTS " +:+ TABLE_NAME +:+ " ("
  +:+ nl +:+ indent +:+ "id SERIAL PRIMARY KEY,"
  +:+ nl +:+ indent +:+ cols
  +:+ nl +:+ indent +:+ ");"
  +:+ nl +:+ indent.

Definition table_creation_script : list Sql :=
  [CreateExtensionIfNotExists "vector";
   DropTableIfExists TABLE_NAME;
   CreateTableIfNotExists TABLE_NAME (("id", SERIAL_PRIMARY_KEY) :: DATABASE_SCHEMA)].

Definition _create_table : Py World unit :=
  call (
    let col_defs :=
      (λ '(col_name, col_type), col_name +:+ " " +:+ show_sql_type col_type)
        <$> DATABASE_SCHEMA in
    let cols := join ", " col_defs in
    lift (logger_info (table_creation_query cols)) >>
    try_except_finally
      (let! c := lift getconn in
       store_connection c >>
       with_connection (
         with_cursor (
           lift (cursor_execute table_creation_script) >> ret ())))
      (λ e,
         lift (logger_error ("Error in create table query: " +:+ exn_str e)) >>
         raise e)
      (let! c := load_connection in
       lift (putconn c))).

(** [DataStore()] *)
Definition DataStore : Py World unit :=
  let! p := _get_connection_pool in
  set_pool p >>
  _create_table.

Definition ingest (text : string) : Py World unit :=
  call (
    let! text_embedding_pairs := lift (get_text_embedding_pairs text) in
    let data_list :=
      (λ curr, (te_text curr, te_embedding curr)) <$> text_embedding_pairs in
    let col_names := DATABASE_SCHEMA.*1 in
    try_except_finally
      (let! c := lift getconn in
       store_connection c >>
       with_connection (
         with_cursor (
           lift (execute_values TABLE_NAME col_names data_list) >>
           lift (logger_info "Updated table with embedding pairs"))))
      (λ e,
         lift (logger_error ("Error in update table query : " +:+ exn_str e)) >>
         raise e)
      (let! c := load_connection in
       lift (putconn c))).

Definition retrieve (query : string) : Py World (list string) :=
  call (
    let! query_embedding := lift (text_embedding query) in
    try_except_finally
      (let! c := lift getconn in
       store_connection c >>
       lift register_vector >>
       with_connection (
         with_cursor (
           let! rows :=
             lift (cursor_execute
                     [SelectOrderByDistanceLimit "text_chunk" TABLE_NAME
                        "embedding" query_embedding 5]) in
           (* list(chain.from_iterable(cursor.fetchall())) *)
           ret (concat rows))))
      (λ e,
         lift (logger_error ("Error in retrieval query : " +:+ exn_str e)) >>
         raise e)
      (let! c := load_connection in
       lift (putconn c))).

(** *** 4. The chat *)

(** [chat_model.start_chat(context = "")] *)
Definition start_chat : Py World unit :=
  λ w, (Return (), set_chat_session [] w).

(** [chat.send_message(message).text] *)
Definition send_message (message : string) : Py World string :=
  emit (EvChat message) >> external >>
  λ w, let reply := response_text (chat_session w) message in
       (Return reply, set_chat_session (chat_session w ++ [(message, reply)]) w).

Definition get_chat_history : Py World (list string) :=
  λ w, (Return (chat_history w), w).

(** [chat_history.append(query)] *)
Definition chat_history_append (query : string) : Py World unit :=
  λ w, (Return (), set_chat_history (chat_history w ++ [query]) w).

(** The body of the loop after the sentinel test. *)
Definition turn (query : string) : Py World unit :=
  (* First API call to send the chat history and get the updated context *)
  let! history := get_chat_history in
  let model_input_1 := prompt_template_format "" (join nl history) in
  let! response_1 := send_message model_input_1 in
  let updated_context := strip response_1 in
  (* Second API call to send the query with the updated context *)
  let! similar_chunks := retrieve query in
  let updated_context := updated_context +:+ join nl similar_chunks in
  let model_input_2 := prompt_template_format query updated_context in
  let! response_2 := send_message model_input_2 in
  print ("Model : " +:+ strip response_2 +:+ nl +:+ nl) >>
  chat_history_append query.

(** [while True: query = input("User Query: ") ...] over the lines standing
    on the input; at the end of the input [input] raises [EOFError].  The
    loop returns the lines it left unread. *)
Fixpoint chat_loop (lines : list string) : Py World (list string) :=
  match lines with
  | [] => raise EOFError
  | query :: lines' =>
      if String.eqb query "quit" then ret lines'
      else turn query >> chat_loop lines'
  end.

(** The cell that runs the chat. *)
Definition conversation (lines : list string) : Py World (list string) :=
  start_chat >> chat_loop lines.

End Model.

Arguments TextEmbedding float : clear implicits.
Arguments Row float : clear implicits.
Arguments Table float : clear implicits.
Arguments Database float : clear implicits.
Arguments Sql float : clear implicits.
Arguments Event float : clear implicits.
Arguments World float : clear implicits.
Arguments Frame float : clear implicits.
Arguments External float : clear implicits.

(** What SQL promises of ORDER BY: the rows come back rearranged so that
    the keys never decrease.  Nothing is promised about rows of equal key. *)
Definition order_by_spec {float} (ext : External float) : Prop :=
  ∀ (A : Type) (key : A → float) (l : list A),
    order_by A key l ≡ₚ l ∧
    StronglySorted (λ a b, fle (key a) (key b) = true) (order_by A key l).

(** The state before the first cell has run: no pool, an empty database. *)
Definition world0 {float} (script : list (option exn)) : World float :=
  {| conn_pool := {| minconn := 0; maxconn := 0; idle := []; used := [];
                     opened := 0 |};
     committed := {| extensions := ∅; tables := ∅ |};
     txn := None;
     sequences := [];
     trace := [];
     faults := script;
     next_uuid := 0;
     chat_session := [];
     chat_history := [] |}.

(** The rows of the notebook's table as the next statement would see them. *)
Definition stored_rows {float} (w : World float) : list (Row float) :=
  match tables (working w) !! TABLE_NAME with
  | Some tb => tbl_rows tb
  | None => []
  end.

(** The rows the database holds durably. *)
Definition committed_rows {float} (w : World float) : list (Row float) :=
  match tables (committed w) !! TABLE_NAME with
  | Some tb => tbl_rows tb
  | None => []
  end.

(** ** Instances to run the model on

    Floats are integers here.  A text is cut into its characters; the
    embedding of a text has the code of its first character as first
    component and zeros elsewhere, 768 components in all; the distance is
    the sum of the squared differences. *)
Module Demo.

Fixpoint chars (s : string) : list string :=
  match s with
  | EmptyString => []
  | String c s' => String c "" :: chars s'
  end.

Definition embed (s : string) : list Z :=
  match s with
  | EmptyString => replicate 768 0%Z
  | String c _ => Z.of_nat (Ascii.nat_of_ascii c) :: replicate 767 0%Z
  end.

Fixpoint dist (a b : list Z) : Z :=
  match a, b with
  | x :: a', y :: b' => ((x - y) * (x - y) + dist a' b')%Z
  | _, _ => 0%Z
  end.

Definition by_key {A} (key : A → Z) : relation A := λ a b, (key a ≤ key b)%Z.

Definition by_key_dec {A} (key : A → Z) (a b : A) : Decision (by_key key a b) :=
  decide (key a ≤ key b)%Z.

Definition reply (session : list (string * string)) (message : string) : string :=
  " R" +:+ pretty (length session) +:+ nl.

(** The services, with a database that orders by merge sort. *)
Definition services : External Z :=
  {| split_text := λ _ s, Return (chars s);
     get_embeddings := fmap embed;
     response_text := reply;
     l2_distance := dist;
     fle := Z.leb;
     order_by := λ A key l, @merge_sort A (by_key key) (by_key_dec key) l |}.


(** The world after [DataStore()], and after [ingest text] on top of it,
    with no failure. *)
Definition store (ext : External Z) : World Z := (DataStore (world0 [])).2.

Definition loaded (ext : External Z) (text : string) : World Z :=
  (ingest text (store ext)).2.

(** The same with the history of one turn, on the query [Q1]. *)
Definition after_Q1 : World Z := (turn (ext := services) "Q1" (loaded services "ab")).2.

(** Borrowing [n] connections and keeping them. *)
Fixpoint borrow (n : nat) : Py (World Z) unit :=
  match n with
  | 0 => ret ()
  | S n' => getconn >> borrow n'
  end.

(** The store with all ten connections out. *)
Definition exhausted (ext : External Z) : World Z := (borrow 10 (store ext)).2.

(** A world in which the next external calls end as [script] says. *)
Definition with_script (script : list (option exn)) (w : World Z) : World Z :=
  set_faults script w.

End Demo.

(** ** Vocabulary of the statements proved below *)

(** A statement preserves a relation between the state it starts in and the
    state it leaves, whether it returns or raises. *)
Definition preserves {S A} (R : relation S) (m : Py S A) : Prop :=
  ∀ s, R s (m s).2.

(** The statement leaves the component [f] of the world as it was. *)
Definition keeps {float B} (f : World float → B) : relation (World float) :=
  λ w w', f w' = f w.

(** The statement only adds events, all of them of the kind [Q]. *)
Definition extends {float} (Q : Event float → bool) : relation (World float) :=
  λ w w', ∃ evs, trace w' = trace w ++ evs ∧ Forall (λ ev, Q ev = true) evs.

Definition in_frame {float} (R : relation (World float)) : relation (Frame float) :=
  λ fr fr', R (world fr) (world fr').

(** Borrowing from the pool and giving back to it. *)
Definition is_pool_event {float} (ev : Event float) : bool :=
  match ev with
  | EvGetconn _ | EvPutconn _ => true
  | _ => false
  end.



(** Anything that reaches the pool or the database. *)
Definition is_store_event {float} (ev : Event float) : bool :=
  match ev with
  | EvConnect | EvGetconn _ | EvPutconn _ | EvBegin | EvExecute _
  | EvCommit | EvRollback => true
  | _ => false
  end.

Definition is_embed_event {float} (ev : Event float) : bool :=
  match ev with
  | EvEmbed _ => true
  | _ => false
  end.

(** The statement leaves the method's local [connection] as it was. *)
Definition same_connection {float} : relation (Frame float) :=
  λ fr fr', connection fr' = connection fr.

(** The [try] statement the three methods of the store share, up to the
    words of the log message and the statements run on the connection. *)
Definition guarded {float} {ext : External float} {A} (label : string)
    (body : Py (Frame float) A) : Py (Frame float) A :=
  try_except_finally
    (let! c := lift getconn in
     store_connection c >>
     body)
    (λ e, lift (logger_error (label +:+ exn_str e)) >> raise e)
    (let! c := load_connection in
     lift (putconn c)).

(** A method of the store: what it does before the [try], then the [try]. *)
Definition pooled {float} {ext : External float} {A B}
    (prefix : Py (World float) A) (label : string)
    (body : A → Py (Frame float) B) : Py (World float) B :=
  call (let! a := lift prefix in guarded label (body a)).

(** What each method runs once it holds its connection. *)
Definition create_body {float} {ext : External float} : Py (Frame float) unit :=
  with_connection (
    with_cursor (
      lift (cursor_execute table_creation_script) >> ret ())).

Definition ingest_body {float} {ext : External float}
    (text_embedding_pairs : list (TextEmbedding float)) : Py (Frame float) unit :=
  with_connection (
    with_cursor (
      lift (execute_values TABLE_NAME (DATABASE_SCHEMA.*1)
              ((λ curr, (te_text curr, te_embedding curr))
                 <$> text_embedding_pairs)) >>
      lift (logger_info "Updated table with embedding pairs"))).

Definition retrieve_body {float} {ext : External float}
    (query_embedding : list float) : Py (Frame float) (list string) :=
  lift register_vector >>
  with_connection (
    with_cursor (
      let! rows :=
        lift (cursor_execute
                [SelectOrderByDistanceLimit "text_chunk" TABLE_NAME
                   "embedding" query_embedding 5]) in
      ret (concat rows))).

(** The splitter [split_input_to_chunks] builds on every call. *)
Definition the_text_splitter : SentenceSplitter :=
  {| separator := " ";
     chunk_size := 300;
     chunk_overlap := 20;
     paragraph_separator := nl +:+ nl;
     secondary_chunking_regex := "[^,.;。]+[,.;。]?";
     tokenizer := "gpt-3.5-turbo" |}.

(** Events among which nothing is borrowed, or one connection is borrowed
    and that connection is given back, once, as the last thing done. *)
Definition balanced {float} (evs : list (Event float)) : Prop :=
  filter (λ ev, is_pool_event ev) evs = [] ∨
  ∃ c, filter (λ ev, is_pool_event ev) evs = [EvGetconn c; EvPutconn c] ∧
       last evs = Some (EvPutconn c).

(** What [ingest] hands to the INSERT for a pair, and what a row keeps of it. *)
Definition pair_data {float} (curr : TextEmbedding float) : string * list float :=
  (te_text curr, te_embedding curr).

Definition row_data {float} (r : Row float) : string * list float :=
  (row_text_chunk r, row_embedding r).

(** A turn in which a call to the chat service or the retrieval raises [e]
    and leaves the world [w']: the first [send_message], or [retrieve], or
    the second [send_message]. *)
Definition turn_fails_with {float} {ext : External float} (query : string)
    (w : World float) (e : exn) (w' : World float) : Prop :=
  let model_input_1 := prompt_template_format "" (join nl (chat_history w)) in
  send_message model_input_1 w = (Raise e, w') ∨
  ∃ response_1 w1,
    send_message model_input_1 w = (Return response_1, w1) ∧
    (retrieve query w1 = (Raise e, w') ∨
     ∃ similar_chunks w2,
       retrieve query w1 = (Return similar_chunks, w2) ∧
       send_message
         (prompt_template_format query
            (strip response_1 +:+ join nl similar_chunks)) w2 = (Raise e, w')).

(** The three operations of the store that borrow a connection. *)
Inductive StoreOp : Type :=
  | OpCreateTable
  | OpIngest (text : string)
  | OpRetrieve (query : string).

Definition run_op {float} {ext : External float} (op : StoreOp)
    : Py (World float) unit :=
  match op with
  | OpCreateTable => _create_table
  | OpIngest text => ingest text
  | OpRetrieve query => retrieve query >> ret ()
  end.


(** The words the [except] clause of each operation puts before [{e}]. *)
Definition error_label (op : StoreOp) : string :=
  match op with
  | OpCreateTable => "Error in create table query: "
  | OpIngest _ => "Error in update table query : "
  | OpRetrieve _ => "Error in retrieval query : "
  end.

Create HintDb docubot.
#[global] Hint Unfold new_Document build_node SentenceSplitter_call
  split_input_to_chunks from_pretrained model_get_embeddings text_embedding
  get_text_embedding_pairs logger_info logger_error print execute_values
  register_vector _get_connection_pool SimpleConnectionPool _create_table
  DataStore ingest retrieve turn conversation run_op
  create_body ingest_body retrieve_body : docubot.

(** ** Vocabulary of the further properties *)

(** The request [text_embedding] makes for one chunk. *)
Definition embed_request {float} (chunk : string) : Event float :=
  EvEmbed [chunk].

(** What the user sees or the chat service receives. *)
Definition is_dialogue_event {float} (ev : Event float) : bool :=
  match ev with
  | EvChat _ | EvPrint _ => true
  | _ => false
  end.

(** The statement writes nothing: from a state whose working copy is the
    committed database it leaves such a state, with the same committed
    database. *)
Definition unwritten {float} : relation (World float) :=
  λ w w', working w = committed w →
          working w' = committed w' ∧ committed w' = committed w.

Module Silent.

(** An embedding service that answers every request with no embedding. *)
Definition mute : External Z :=
  {| split_text := split_text (External := Demo.services);
     get_embeddings := λ _, [];
     response_text := response_text (External := Demo.services);
     l2_distance := l2_distance (External := Demo.services);
     fle := fle (External := Demo.services);
     order_by := order_by (External := Demo.services) |}.

End Silent.

(** ** Reading the document *)

Section ReadPdf.

(** What the file system and pypdf give: the pages of the file at a path, or
    the exception [open] or [PdfReader] ends with; the text of a page, or
    the exception its extraction ends with. *)
Class PdfLibrary (Page : Type) : Type := {
  reader_pages : string → Result (list Page);
  extract_text : Page → Result string;
}.

Context {Page : Type} {pdf : PdfLibrary Page}.

(** The [for] loop of [read_pdf], from the [text] accumulated so far. *)
Fixpoint read_pages (text : string) (pages : list Page) : Result string :=
  match pages with
  | [] => Return text
  | page :: pages' =>
      match extract_text page with
      | Return page_text => read_pages (text +:+ page_text) pages'
      | Raise e => Raise e
      end
  end.

Definition read_pdf (file_path : string) : Result string :=
  match reader_pages file_path with
  | Return pages => read_pages "" pages
  | Raise e => Raise e
  end.

End ReadPdf.

Module Paper.

(** A document of two pages, whatever the path. *)
Definition library : PdfLibrary string :=
  {| reader_pages := λ _, Return ["The first page"; "and the second."];
     extract_text := λ page, Return page |}.

End Paper.

(** * Reasoning about statements *)

Section Statements.
Context {S : Type}.

Lemma bind_Return {A B} (m : Py S A) (k : A → Py S B) s a s1 :
  m s = (Return a, s1) → bind m k s = k a s1.
Proof. unfold bind. by intros ->. Qed.

Lemma bind_Raise {A B} (m : Py S A) (k : A → Py S B) s e s1 :
  m s = (Raise e, s1) → bind m k s = (Raise e, s1).
Proof. unfold bind. by intros ->. Qed.

Lemma bind_Return_inv {A B} (m : Py S A) (k : A → Py S B) s b s' :
  bind m k s = (Return b, s') →
  ∃ a s1, m s = (Return a, s1) ∧ k a s1 = (Return b, s').
Proof.
  unfold bind. destruct (m s) as [[a|e] s1]; [eauto | discriminate].
Qed.

Lemma bind_Raise_inv {A B} (m : Py S A) (k : A → Py S B) s e s' :
  bind m k s = (Raise e, s') →
  m s = (Raise e, s') ∨ ∃ a s1, m s = (Return a, s1) ∧ k a s1 = (Raise e, s').
Proof.
  unfold bind. destruct (m s) as [[a|e0] s1]; [eauto | intros [= -> ->]; auto].
Qed.

Context (R : relation S) `{!PreOrder R}.

Lemma preserves_ret {A} (a : A) : preserves R (ret a).
Proof. intros s. simpl. reflexivity. Qed.

Lemma preserves_raise {A} e : preserves R (@raise S A e).
Proof. intros s. simpl. reflexivity. Qed.

Lemma preserves_bind {A B} (m : Py S A) (k : A → Py S B) :
  preserves R m → (∀ a, preserves R (k a)) → preserves R (bind m k).
Proof.
  intros Hm Hk s. unfold bind. specialize (Hm s).
  destruct (m s) as [[a|e] s1]; simpl in *; [|done].
  etrans; [exact Hm | apply Hk].
Qed.

Lemma preserves_for_each {A B} (f : A → Py S B) xs :
  (∀ x, preserves R (f x)) → preserves R (for_each f xs).
Proof.
  intros Hf. induction xs as [|x xs IH]; simpl.
  - apply preserves_ret.
  - apply preserves_bind; [apply Hf | intros y].
    apply preserves_bind; [exact IH | intros ys; apply preserves_ret].
Qed.

Lemma preserves_try_except_finally {A}
    (body : Py S A) (handler : exn → Py S A) (fin : Py S unit) :
  preserves R body → (∀ e, preserves R (handler e)) → preserves R fin →
  preserves R (try_except_finally body handler fin).
Proof.
  intros Hb Hh Hf s. unfold try_except_finally.
  specialize (Hb s). destruct (body s) as [[a|e] s1]; simpl in *.
  - specialize (Hf s1). destruct (fin s1) as [[[]|e'] s3]; simpl in *;
      by etrans.
  - specialize (Hh e s1). destruct (handler e s1) as [r' s2]; simpl in *.
    specialize (Hf s2). destruct (fin s2) as [[[]|e'] s3]; simpl in *;
      (etrans; [exact Hb | by etrans]).
Qed.

End Statements.

(** * The model *)

Section Theory.
Context {float : Type} {ext : External float}.

Local Abbreviation World := (World float).
Local Abbreviation Frame := (Frame float).
Local Abbreviation Event := (Event float).
Local Abbreviation same_connection := (@same_connection float).

Global Instance keeps_preorder {B} (f : World → B) : PreOrder (keeps f).
Proof. split; [by intros w | intros w1 w2 w3; unfold keeps; congruence]. Qed.

Global Instance extends_preorder (Q : Event → bool) : PreOrder (extends Q).
Proof.
  split.
  - intros w. exists []. by rewrite app_nil_r.
  - intros w1 w2 w3 (evs1 & E1 & F1) (evs2 & E2 & F2).
    exists (evs1 ++ evs2). rewrite E2, E1, <- app_assoc.
    split; [done | by apply Forall_app].
Qed.

Global Instance in_frame_preorder (R : relation World) `{!PreOrder R} :
  PreOrder (in_frame R).
Proof.
  split; [intros fr | intros fr1 fr2 fr3]; unfold in_frame;
    [reflexivity | apply transitivity].
Qed.

Lemma preserves_lift {A} (R : relation World) (m : Py World A) :
  preserves R m → preserves (in_frame R) (lift m).
Proof.
  intros Hm fr. unfold lift, in_frame. specialize (Hm (world fr)).
  by destruct (m (world fr)).
Qed.

Lemma preserves_call {A} (R : relation World) (m : Py Frame A) :
  preserves (in_frame R) m → preserves R (call m).
Proof.
  intros Hm w. unfold call. specialize (Hm {| connection := None; world := w |}).
  by destruct (m _).
Qed.

Lemma preserves_store_connection (R : relation World) `{!PreOrder R} c :
  preserves (in_frame R) (store_connection c).
Proof. intros fr. unfold in_frame. simpl. reflexivity. Qed.

Lemma preserves_load_connection (R : relation World) `{!PreOrder R} :
  preserves (in_frame R) load_connection.
Proof.
  intros fr. unfold in_frame, load_connection.
  destruct (connection fr); simpl; reflexivity.
Qed.

Lemma preserves_with_connection {A} (R : relation World) `{!PreOrder R}
    (body : Py Frame A) :
  preserves (in_frame R) body → preserves R commit → preserves R rollback →
  preserves (in_frame R) (with_connection body).
Proof.
  intros Hb Hc Hr. unfold with_connection.
  apply preserves_bind; [apply _ | by apply preserves_load_connection | intros _].
  intros fr. specialize (Hb fr). destruct (body fr) as [[a|e] fr1]; simpl in *.
  - etrans; [exact Hb|].
    apply (preserves_bind (in_frame R));
      [by apply preserves_lift | intros; apply preserves_ret; apply _].
  - etrans; [exact Hb|].
    apply (preserves_bind (in_frame R));
      [by apply preserves_lift | intros; apply preserves_raise; apply _].
Qed.

(** *** What each primitive touches *)

Ltac settle :=
  simpl;
  repeat match goal with
         | H : ∀ v w, ?f (_ v w) = ?f w |- _ => rewrite H
         end;
  try done.

Lemma keeps_emit {B} (f : World → B) ev :
  (∀ v w, f (set_trace v w) = f w) → preserves (keeps f) (emit ev).
Proof. intros Hf w. apply Hf. Qed.

Lemma keeps_external {B} (f : World → B) :
  (∀ v w, f (set_faults v w) = f w) → preserves (keeps f) external.
Proof.
  intros Hf w. unfold keeps, external.
  destruct (faults w) as [|[e|] rest]; settle.
Qed.

Lemma keeps_fresh_id {B} (f : World → B) :
  (∀ v w, f (set_next_uuid v w) = f w) → preserves (keeps f) fresh_id.
Proof. intros Hf w. apply Hf. Qed.

Lemma keeps_getconn {B} (f : World → B) :
  (∀ v w, f (set_trace v w) = f w) → (∀ v w, f (set_faults v w) = f w) →
  (∀ v w, f (set_conn_pool v w) = f w) → preserves (keeps f) getconn.
Proof.
  intros Ht Hf Hp w. unfold keeps, getconn.
  destruct (idle (conn_pool w)) as [|c rest].
  - destruct (_ =? _); [done|]. unfold bind, external.
    destruct (faults w) as [|[e|] rest]; settle.
  - settle.
Qed.

Lemma keeps_putconn {B} (f : World → B) c :
  (∀ v w, f (set_trace v w) = f w) → (∀ v w, f (set_txn v w) = f w) →
  (∀ v w, f (set_conn_pool v w) = f w) → preserves (keeps f) (putconn c).
Proof.
  intros Ht Hx Hp w. unfold keeps, putconn.
  destruct (bool_decide _); settle.
Qed.

Lemma keeps_exec_stmt {B} (f : World → B) s :
  (∀ v w, f (set_txn v w) = f w) → (∀ v w, f (set_sequences v w) = f w) →
  preserves (keeps f) (exec_stmt s).
Proof.
  intros Hx Hs w. unfold keeps, exec_stmt, set_working.
  destruct s; simpl; repeat case_match; settle.
Qed.

Lemma keeps_begin {B} (f : World → B) :
  (∀ v w, f (set_trace v w) = f w) → (∀ v w, f (set_txn v w) = f w) →
  preserves (keeps f) begin.
Proof.
  intros Ht Hx w. unfold keeps, begin.
  destruct (txn w); settle.
Qed.

Lemma keeps_commit {B} (f : World → B) :
  (∀ v w, f (set_trace v w) = f w) → (∀ v w, f (set_txn v w) = f w) →
  (∀ v w, f (set_faults v w) = f w) → (∀ v w, f (set_committed v w) = f w) →
  preserves (keeps f) commit.
Proof.
  intros Ht Hx Hf Hc w. unfold keeps, commit, external.
  destruct (txn w); [|done]. simpl.
  destruct (faults w) as [|[e|] rest]; settle.
Qed.

Lemma keeps_rollback {B} (f : World → B) :
  (∀ v w, f (set_trace v w) = f w) → (∀ v w, f (set_txn v w) = f w) →
  (∀ v w, f (set_faults v w) = f w) → preserves (keeps f) rollback.
Proof.
  intros Ht Hx Hf w. unfold keeps, rollback, external, bind.
  destruct (txn w); [|done]. simpl.
  destruct (faults w) as [|[e|] rest]; settle.
Qed.

Lemma keeps_set_pool {B} (f : World → B) p :
  (∀ v w, f (set_conn_pool v w) = f w) → preserves (keeps f) (set_pool p).
Proof. intros Hp w. apply Hp. Qed.

Lemma keeps_start_chat {B} (f : World → B) :
  (∀ v w, f (set_chat_session v w) = f w) → preserves (keeps f) start_chat.
Proof. intros Hp w. apply Hp. Qed.

Lemma keeps_get_chat_history {B} (f : World → B) :
  preserves (keeps f) get_chat_history.
Proof. by intros w. Qed.

Lemma keeps_chat_history_append {B} (f : World → B) q :
  (∀ v w, f (set_chat_history v w) = f w) →
  preserves (keeps f) (chat_history_append q).
Proof. intros Hp w. apply Hp. Qed.

Lemma keeps_send_message {B} (f : World → B) message :
  (∀ v w, f (set_trace v w) = f w) → (∀ v w, f (set_faults v w) = f w) →
  (∀ v w, f (set_chat_session v w) = f w) →
  preserves (keeps f) (send_message message).
Proof.
  intros Ht Hf Hs. unfold send_message.
  apply preserves_bind; [apply _ | by apply keeps_emit | intros _].
  apply preserves_bind; [apply _ | by apply keeps_external | intros _].
  intros w. apply Hs.
Qed.

(** *** What each primitive emits *)

Lemma extends_keeps {A} (Q : Event → bool) (m : Py World A) :
  preserves (keeps trace) m → preserves (extends Q) m.
Proof. intros Hm w. exists []. by rewrite app_nil_r, (Hm w). Qed.

Lemma extends_emit (Q : Event → bool) ev :
  Q ev = true → preserves (extends Q) (emit ev).
Proof. intros Hq w. exists [ev]. split; [done | by constructor]. Qed.

Ltac added :=
  simpl; eexists;
  split; [rewrite <- ?app_assoc; first [reflexivity | symmetry; apply app_nil_r]
         | by repeat constructor].

Lemma extends_getconn (Q : Event → bool) :
  Q EvConnect = true → (∀ c, Q (EvGetconn c) = true) →
  preserves (extends Q) getconn.
Proof.
  intros Hc Hg w. unfold getconn.
  destruct (idle (conn_pool w)) as [|c rest]; [|added].
  destruct (_ =? _); [added|]. unfold bind, external.
  destruct (faults w) as [|[e|] rest]; added.
Qed.

Lemma extends_putconn (Q : Event → bool) c :
  Q (EvPutconn c) = true → preserves (extends Q) (putconn c).
Proof. intros Hp w. unfold putconn. destruct (bool_decide _); added. Qed.

Lemma extends_begin (Q : Event → bool) :
  Q EvBegin = true → preserves (extends Q) begin.
Proof. intros Hb w. unfold begin. destruct (txn w); added. Qed.

Lemma extends_commit (Q : Event → bool) :
  Q EvCommit = true → preserves (extends Q) commit.
Proof.
  intros Hc w. unfold commit, external. destruct (txn w); [|added].
  simpl. destruct (faults w) as [|[e|] rest]; added.
Qed.

Lemma extends_rollback (Q : Event → bool) :
  Q EvRollback = true → preserves (extends Q) rollback.
Proof.
  intros Hr w. unfold rollback, external, bind. destruct (txn w); [|added].
  simpl. destruct (faults w) as [|[e|] rest]; added.
Qed.

(** *** The loops *)

Section Loops.
Context (R : relation World) `{!PreOrder R}.

Lemma preserves_run_script script rows :
  (∀ s, preserves R (exec_stmt s)) → preserves R (run_script script rows).
Proof.
  intros Hs. revert rows. induction script as [|s script IH]; intros rows; simpl.
  - by apply preserves_ret.
  - apply preserves_bind; [done | apply Hs | intros rows'; apply IH].
Qed.

Lemma preserves_cursor_execute script :
  preserves R begin → preserves R (emit (EvExecute script)) →
  preserves R external → (∀ s, preserves R (exec_stmt s)) →
  preserves R (cursor_execute script).
Proof.
  intros Hb He Hx Hs. unfold cursor_execute.
  repeat (apply preserves_bind; [done | done | intros _]).
  by apply preserves_run_script.
Qed.

Lemma preserves_execute_pages table col_names pgs :
  (∀ script, preserves R (cursor_execute script)) →
  preserves R (execute_pages table col_names pgs).
Proof.
  intros Hc. induction pgs as [|page pgs IH]; simpl.
  - by apply preserves_ret.
  - apply preserves_bind; [done | apply Hc | intros _; apply IH].
Qed.

Lemma preserves_open_idle n p :
  preserves R external → preserves R (emit EvConnect) →
  preserves R (open_idle n p).
Proof.
  intros Hx He. revert p. induction n as [|n IH]; intros p; simpl.
  - by apply preserves_ret.
  - repeat (apply preserves_bind; [done | done | intros _]). apply IH.
Qed.

Lemma preserves_chat_loop lines :
  (∀ query, preserves R (turn query)) → preserves R (chat_loop lines).
Proof.
  intros Ht. induction lines as [|query lines IH]; simpl.
  - by apply preserves_raise.
  - destruct (String.eqb query "quit"); [by apply preserves_ret|].
    apply preserves_bind; [done | apply Ht | intros _; apply IH].
Qed.

End Loops.

(** Decomposing a statement along its structure, down to the primitives. *)
Ltac keeps_leaf :=
  first [ apply keeps_emit | apply keeps_external | apply keeps_fresh_id
        | apply keeps_getconn | apply keeps_putconn | apply keeps_exec_stmt
        | apply keeps_begin | apply keeps_commit | apply keeps_rollback
        | apply keeps_set_pool | apply keeps_start_chat
        | apply keeps_get_chat_history | apply keeps_chat_history_append
        | apply keeps_send_message ];
  intros; reflexivity.

Ltac extends_leaf :=
  first [ apply extends_emit | apply extends_getconn | apply extends_putconn
        | apply extends_begin | apply extends_commit | apply extends_rollback
        | apply extends_keeps; keeps_leaf ];
  intros; reflexivity.

Ltac preserve_step :=
  lazymatch goal with
  | |- PreOrder _ => apply _
  | |- preserves _ (ret _) => apply preserves_ret
  | |- preserves _ (raise _) => apply preserves_raise
  | |- preserves _ (bind _ _) => apply preserves_bind; [| |intros ?]
  | |- preserves _ (for_each _ _) => apply preserves_for_each; [|intros ?]
  | |- preserves _ (try_except_finally _ _ _) =>
      apply preserves_try_except_finally; [| |intros ?|]
  | |- preserves _ (lift _) => apply preserves_lift
  | |- preserves _ (call _) => apply preserves_call
  | |- preserves _ (store_connection _) => apply preserves_store_connection
  | |- preserves _ load_connection => apply preserves_load_connection
  | |- preserves _ (with_connection _) => apply preserves_with_connection
  | |- preserves _ (with_cursor _) => unfold with_cursor
  | |- preserves _ (run_script _ _) => apply preserves_run_script; [|intros ?]
  | |- preserves _ (cursor_execute _) => apply preserves_cursor_execute; [| | | |intros ?]
  | |- preserves _ (execute_pages _ _ _) => apply preserves_execute_pages; [|intros ?]
  | |- preserves _ (open_idle _ _) => apply preserves_open_idle
  | |- preserves _ (chat_loop _) => apply preserves_chat_loop; [|intros ?]
  | |- preserves _ (match ?x with _ => _ end) => destruct x
  | |- preserves (keeps _) _ => first [ keeps_leaf | progress autounfold with docubot ]
  | |- preserves (extends _) _ => first [ extends_leaf | progress autounfold with docubot ]
  | |- preserves _ _ => progress autounfold with docubot
  end.

Ltac preserve := repeat preserve_step.

(** *** Segmentation *)

Lemma build_nodes_text doc splits (w : World) :
  ∃ nodes w', for_each (build_node doc) splits w = (Return nodes, w') ∧
              node_text <$> nodes = splits.
Proof.
  revert w. induction splits as [|split splits IH]; intros w; simpl.
  - by eexists _, _.
  - unfold bind at 1. simpl.
    destruct (IH (set_next_uuid (S (next_uuid w)) w)) as (nodes & w' & E & T).
    unfold bind. rewrite E. simpl. eexists _, _. split; [done|].
    by rewrite fmap_cons, T.
Qed.

Lemma split_input_to_chunks_result input_text (w : World) :
  (split_input_to_chunks input_text w).1 = split_text the_text_splitter input_text.
Proof.
  unfold split_input_to_chunks, SentenceSplitter_call, new_Document.
  unfold bind at 1 2. simpl. fold the_text_splitter.
  destruct (split_text the_text_splitter input_text) as [splits|e]; simpl.
  - destruct (build_nodes_text
                {| doc_id_ := next_uuid w; doc_text := input_text |} splits
                (set_next_uuid (S (next_uuid w)) w)) as (nodes & w' & E & T).
    unfold bind. rewrite E. simpl. by rewrite app_nil_r, T.
  - done.
Qed.


(** *** Ingestion embeds first *)

Lemma call_bind_lift {A B} (m : Py World A) (k : A → Py Frame B) w :
  call (bind (lift m) k) w =
  match m w with
  | (Return a, w1) =>
      let '(r, fr) := k a {| connection := None; world := w1 |} in (r, world fr)
  | (Raise e, w1) => (Raise e, w1)
  end.
Proof. unfold call, bind, lift. simpl. by destruct (m w) as [[a|e] w1]. Qed.

(** C10. In [ingest] every chunk is embedded before a connection is
    borrowed.  The embedding phase leaves the pool, the database, the open
    transaction and the sequences as they were and does nothing that reaches
    the store; if it raises, [ingest] ends there with that very exception;
    if it returns, what follows embeds no more. *)
Theorem ingest_embeds_before_borrowing text (w : World) :
  let '(r, w1) := get_text_embedding_pairs text w in
  (conn_pool w1 = conn_pool w ∧ committed w1 = committed w ∧
   txn w1 = txn w ∧ sequences w1 = sequences w ∧
   extends (λ ev, negb (is_store_event ev)) w w1) ∧
  match r with
  | Raise e => ingest text w = (Raise e, w1)
  | Return _ => extends (λ ev, negb (is_embed_event ev)) w1 (ingest text w).2
  end.
Proof.
  pose proof (λ R H, @id (preserves R (get_text_embedding_pairs text)) H w) as K.
  unfold ingest. rewrite call_bind_lift.
  destruct (get_text_embedding_pairs text w) as [[pairs|e] w1] eqn:E; simpl in K.
  - split.
    + repeat split; [apply (K (keeps conn_pool)) | apply (K (keeps committed))
                    | apply (K (keeps txn)) | apply (K (keeps sequences))
                    | apply (K (extends _)) ]; preserve.
    + match goal with
      | |- context [try_except_finally ?b ?h ?f ?fr] =>
          assert (preserves (in_frame (extends (λ ev, negb (is_embed_event ev))))
                    (try_except_finally b h f)) as P by preserve;
          specialize (P fr); by destruct (try_except_finally b h f fr)
      end.
  - split; [|done].
    repeat split; [apply (K (keeps conn_pool)) | apply (K (keeps committed))
                  | apply (K (keeps txn)) | apply (K (keeps sequences))
                  | apply (K (extends _)) ]; preserve.
Qed.

(** *** Borrowing and returning *)

Lemma same_connection_preorder : PreOrder same_connection.
Proof.
  split; [by intros fr | intros f1 f2 f3; unfold same_connection; congruence].
Qed.
Local Existing Instance same_connection_preorder.

Lemma same_connection_lift {A} (m : Py World A) :
  preserves same_connection (lift m).
Proof. intros fr. unfold lift. by destruct (m (world fr)). Qed.

Lemma same_connection_load : preserves same_connection load_connection.
Proof. intros fr. unfold load_connection. by destruct (connection fr). Qed.

Lemma same_connection_with_connection {A} (body : Py Frame A) :
  preserves same_connection body → preserves same_connection (with_connection body).
Proof.
  intros Hb. unfold with_connection.
  apply preserves_bind; [apply _ | apply same_connection_load | intros _].
  intros fr. specialize (Hb fr). destruct (body fr) as [[a|e] fr1]; simpl in *.
  - etrans; [exact Hb|].
    apply (preserves_bind same_connection);
      [apply same_connection_lift | intros; apply preserves_ret; apply _].
  - etrans; [exact Hb|].
    apply (preserves_bind same_connection);
      [apply same_connection_lift | intros; apply preserves_raise; apply _].
Qed.

Ltac same_conn :=
  repeat first
    [ apply same_connection_lift | apply same_connection_load
    | apply same_connection_with_connection
    | apply (preserves_bind same_connection); [|intros ?]
    | apply (preserves_ret same_connection)
    | progress unfold with_cursor ].

Lemma remove_first_head c l : remove_first c (c :: l) = l.
Proof. simpl. by rewrite Nat.eqb_refl. Qed.

Lemma getconn_Return (w : World) c w1 :
  getconn w = (Return c, w1) →
  used (conn_pool w1) = c :: used (conn_pool w) ∧
  ∃ evs, trace w1 = trace w ++ evs ++ [EvGetconn c] ∧
         Forall (λ ev, negb (is_pool_event ev) = true) evs.
Proof.
  unfold getconn. destruct (idle (conn_pool w)) as [|c' rest].
  - destruct (_ =? _); [done|]. unfold bind, external.
    destruct (faults w) as [|[e|] rest]; simpl; intros [= <- <-]; simpl;
      (split; [done|]); exists [EvConnect];
      (split; [by rewrite <- app_assoc | by repeat constructor]).
  - simpl. intros [= <- <-]. simpl. split; [done|]. by exists [].
Qed.

Lemma getconn_Raise (w : World) e w1 :
  getconn w = (Raise e, w1) → conn_pool w1 = conn_pool w ∧ trace w1 = trace w.
Proof.
  unfold getconn. destruct (idle (conn_pool w)) as [|c' rest]; [|done].
  destruct (_ =? _); [by intros [= <- <-]|]. unfold bind, external.
  destruct (faults w) as [|[e'|] rest]; simpl; [done | | done].
  by intros [= <- <-].
Qed.

Lemma putconn_used c (w : World) :
  c ∈ used (conn_pool w) →
  (putconn c w).1 = Return () ∧
  used (conn_pool (putconn c w).2) = remove_first c (used (conn_pool w)) ∧
  trace (putconn c w).2 = trace w ++ [EvPutconn c].
Proof.
  intros Hc. unfold putconn. by rewrite (bool_decide_eq_true_2 _ Hc).
Qed.

(** What the [try] statement amounts to, by whether a connection could be
    borrowed and how the body ended. *)
Lemma guarded_run {A} label (body : Py Frame A) (w : World) :
  preserves same_connection body →
  preserves (in_frame (keeps conn_pool)) body →
  guarded label body {| connection := None; world := w |} =
  match getconn w with
  | (Raise e, w1) =>
      (Raise (UnboundLocalError "connection"),
       {| connection := None;
          world := (logger_error (label +:+ exn_str e) w1).2 |})
  | (Return c, w1) =>
      match body {| connection := Some c; world := w1 |} with
      | (Return a, fr2) =>
          (Return a,
           {| connection := Some c; world := (putconn c (world fr2)).2 |})
      | (Raise e, fr2) =>
          (Raise e,
           {| connection := Some c;
              world := (putconn c (logger_error (label +:+ exn_str e)
                                     (world fr2)).2).2 |})
      end
  end.
Proof.
  intros Hconn Hpool.
  unfold guarded, try_except_finally, bind, lift, store_connection,
    load_connection, logger_error, emit, raise. simpl.
  destruct (getconn w) as [[c|e] w1] eqn:Eg; simpl; [|done].
  specialize (Hconn {| connection := Some c; world := w1 |}).
  specialize (Hpool {| connection := Some c; world := w1 |}).
  unfold same_connection, in_frame, keeps in *.
  apply getconn_Return in Eg as [Hu _].
  destruct (body {| connection := Some c; world := w1 |})
    as [[a|e] [conn2 w2]]; simpl in *; subst conn2.
  - destruct (putconn_used c w2) as (Hr & _); [rewrite Hpool, Hu; set_solver|].
    simpl. by destruct (putconn c w2) as [[[]|?] ?].
  - destruct (putconn_used c
                (set_trace (trace w2 ++ [EvLog "ERROR" (label +:+ exn_str e)]) w2))
      as (Hr & _); [simpl; rewrite Hpool, Hu; set_solver|].
    simpl. by destruct (putconn c _) as [[[]|?] ?].
Qed.

Lemma filter_pool_none (evs : list Event) :
  Forall (λ ev, negb (is_pool_event ev) = true) evs →
  filter (λ ev, is_pool_event ev) evs = [].
Proof.
  induction 1 as [|ev evs Hev _ IH]; [done|].
  rewrite filter_cons_False, IH; [done|].
  destruct (is_pool_event ev); naive_solver.
Qed.


Section Pooled.
Context {A B : Type} (prefix : Py World A) (label : string)
        (body : A → Py Frame B).
Hypothesis prefix_pool : preserves (keeps conn_pool) prefix.
Hypothesis prefix_quiet :
  preserves (extends (λ ev, negb (is_pool_event ev))) prefix.
Hypothesis body_conn : ∀ a, preserves same_connection (body a).
Hypothesis body_pool : ∀ a, preserves (in_frame (keeps conn_pool)) (body a).
Hypothesis body_quiet :
  ∀ a, preserves (in_frame (extends (λ ev, negb (is_pool_event ev)))) (body a).

Lemma pooled_run (w : World) :
  pooled prefix label body w =
  match prefix w with
  | (Raise e, w1) => (Raise e, w1)
  | (Return a, w1) =>
      match getconn w1 with
      | (Raise e, w2) =>
          (Raise (UnboundLocalError "connection"),
           (logger_error (label +:+ exn_str e) w2).2)
      | (Return c, w2) =>
          match body a {| connection := Some c; world := w2 |} with
          | (Return b, fr3) => (Return b, (putconn c (world fr3)).2)
          | (Raise e, fr3) =>
              (Raise e,
               (putconn c (logger_error (label +:+ exn_str e) (world fr3)).2).2)
          end
      end
  end.
Proof.
  unfold pooled. rewrite call_bind_lift.
  destruct (prefix w) as [[a|e] w1]; [|done].
  rewrite guarded_run by done.
  destruct (getconn w1) as [[c|e] w2]; [|done].
  by destruct (body a _) as [[b|e] fr3].
Qed.

(** Whatever happens, the connections in use are those in use before, and
    the events are balanced. *)
Lemma pooled_balanced (w : World) :
  used (conn_pool (pooled prefix label body w).2) = used (conn_pool w) ∧
  ∃ evs, trace (pooled prefix label body w).2 = trace w ++ evs ∧ balanced evs.
Proof.
  rewrite pooled_run.
  pose proof (prefix_pool w) as Hp. destruct (prefix_quiet w) as (evs0 & Ht0 & Hq0).
  destruct (prefix w) as [[a|e] w1]; unfold keeps in *; simpl in *.
  2:{ split; [by rewrite Hp|]. exists evs0. split; [done|].
      left. by apply filter_pool_none. }
  destruct (getconn w1) as [[c|e] w2] eqn:Eg; simpl.
  2:{ apply getconn_Raise in Eg as [Hp2 Ht2]. split; [by rewrite Hp2, Hp|].
      eexists. rewrite Ht2, Ht0, <- app_assoc. split; [done|].
      left. rewrite filter_app, (filter_pool_none evs0) by done. done. }
  apply getconn_Return in Eg as (Hu2 & evs1 & Ht2 & Hq1).
  pose proof (body_pool a {| connection := Some c; world := w2 |}) as Hp3.
  destruct (body_quiet a {| connection := Some c; world := w2 |})
    as (evs2 & Ht3 & Hq2).
  unfold in_frame, keeps in *.
  assert (∀ tail : list Event,
    Forall (λ ev, negb (is_pool_event ev) = true) tail →
    balanced (evs0 ++ (evs1 ++ [EvGetconn c]) ++ evs2 ++ tail ++ [EvPutconn c]))
    as Hbal.
  { intros tail Htail. right. exists c. split.
    - rewrite !filter_app, !(filter_pool_none evs0), !(filter_pool_none evs1),
        !(filter_pool_none evs2), !(filter_pool_none tail) by done. done.
    - by rewrite !app_assoc, last_snoc. }
  destruct (body a _) as [[b|e] [conn3 w3]]; simpl in *.
  - destruct (putconn_used c w3) as (_ & Hu & Ht); [rewrite Hp3, Hu2; set_solver|].
    split; [by rewrite Hu, Hp3, Hu2, remove_first_head, Hp|].
    eexists. split; [|apply (Hbal []); constructor].
    rewrite Ht, Ht3, Ht2, Ht0, <- !app_assoc. done.
  - destruct (putconn_used c
                (set_trace (trace w3 ++ [EvLog "ERROR" (label +:+ exn_str e)]) w3))
      as (_ & Hu & Ht); [simpl; rewrite Hp3, Hu2; set_solver|].
    simpl in *.
    split; [by rewrite Hu, Hp3, Hu2, remove_first_head, Hp|].
    eexists. split; [|apply (Hbal [EvLog "ERROR" (label +:+ exn_str e)]);
                       by repeat constructor].
    rewrite Ht, Ht3, Ht2, Ht0, <- !app_assoc. done.
Qed.


(** With nothing idle and [maxconn] connections in use the statement does
    not wait: either what comes before the [try] raised, or the pool
    refuses at once and the statement ends with an exception. *)
Lemma pooled_exhausted (w : World) :
  idle (conn_pool w) = [] →
  length (used (conn_pool w)) = maxconn (conn_pool w) →
  match prefix w with
  | (Raise e, w1) => pooled prefix label body w = (Raise e, w1)
  | (Return a, w1) =>
      getconn w1 = (Raise (PoolError "connection pool exhausted"), w1) ∧
      pooled prefix label body w =
      (Raise (UnboundLocalError "connection"),
       (logger_error (label +:+ "connection pool exhausted") w1).2)
  end.
Proof.
  intros Hidle Hused. rewrite pooled_run. pose proof (prefix_pool w) as Hp.
  destruct (prefix w) as [[a|e] w1]; [|done]. unfold keeps in Hp. simpl in Hp.
  assert (getconn w1 = (Raise (PoolError "connection pool exhausted"), w1)) as ->.
  { unfold getconn. rewrite Hp, Hidle, Hused. by rewrite Nat.eqb_refl. }
  done.
Qed.

End Pooled.

(** *** The three methods *)

Lemma _create_table_pooled :
  _create_table =
  pooled (logger_info
            (table_creation_query
               (join ", " ((λ '(col_name, col_type),
                              col_name +:+ " " +:+ show_sql_type col_type)
                             <$> DATABASE_SCHEMA))))
    (error_label OpCreateTable) (λ _, create_body).
Proof. reflexivity. Qed.

Lemma ingest_pooled text :
  ingest text =
  pooled (get_text_embedding_pairs text) (error_label (OpIngest text)) ingest_body.
Proof. reflexivity. Qed.

Lemma retrieve_pooled query :
  retrieve query =
  pooled (text_embedding query) (error_label (OpRetrieve query)) retrieve_body.
Proof. reflexivity. Qed.

Lemma bind_ret_unit {A} (m : Py World A) (w : World) :
  (m >> ret ()) w =
  (match (m w).1 with Return _ => Return () | Raise e => Raise e end, (m w).2).
Proof. unfold bind, ret. by destruct (m w) as [[a|e] w1]. Qed.

Ltac pooled_hyps := first [ by preserve | by (autounfold with docubot; same_conn) ].

(** C4. Each of [_create_table], [ingest] and [retrieve], however it ends,
    leaves in use exactly the connections that were in use before it, and on
    its way it either borrows nothing (nothing could be borrowed, or it
    failed before trying) or borrows one connection and gives that
    connection back once, as the last thing it does. *)
Theorem connection_returned_exactly_once op (w : World) :
  used (conn_pool (run_op op w).2) = used (conn_pool w) ∧
  ∃ evs, trace (run_op op w).2 = trace w ++ evs ∧ balanced evs.
Proof.
  destruct op as [|text|query]; simpl.
  - rewrite _create_table_pooled. apply pooled_balanced; intros; pooled_hyps.
  - rewrite ingest_pooled. apply pooled_balanced; intros; pooled_hyps.
  - rewrite bind_ret_unit, retrieve_pooled. simpl.
    apply pooled_balanced; intros; pooled_hyps.
Qed.



Lemma _get_connection_pool_bounds (w : World) :
  match _get_connection_pool w with
  | (Return p, _) => minconn p = 1 ∧ maxconn p = 10
  | (Raise _, _) => True
  end.
Proof.
  unfold _get_connection_pool, SimpleConnectionPool. simpl.
  unfold bind, external. by destruct (faults w) as [|[e|] rest].
Qed.

(** C2, as the code has it.  The pool is made with a minimum of 1 and a
    maximum of 10 connections.  When none is idle and the maximum is in use,
    each of the three operations ends with an exception instead of waiting,
    and leaves the pool, the database and the open transaction as they
    were. *)
Theorem exhausted_pool_raises_at_once op (w : World) :
  idle (conn_pool w) = [] →
  length (used (conn_pool w)) = maxconn (conn_pool w) →
  (∃ e w', run_op op w = (Raise e, w') ∧ conn_pool w' = conn_pool w ∧
           committed w' = committed w ∧ txn w' = txn w) ∧
  (∀ w0 : World,
     match _get_connection_pool w0 with
     | (Return p, _) => minconn p = 1 ∧ maxconn p = 10
     | (Raise _, _) => True
     end).
Proof.
  intros Hidle Hused. split; [|apply _get_connection_pool_bounds].
  assert (∀ {A B} (prefix : Py World A) label (body : A → Py Frame B),
    preserves (keeps conn_pool) prefix → preserves (keeps committed) prefix →
    preserves (keeps txn) prefix →
    (∀ a, preserves same_connection (body a)) →
    (∀ a, preserves (in_frame (keeps conn_pool)) (body a)) →
    ∃ e w', pooled prefix label body w = (Raise e, w') ∧
            conn_pool w' = conn_pool w ∧ committed w' = committed w ∧
            txn w' = txn w) as H.
  { intros A B prefix label body Hp Hc Hx Hb1 Hb2.
    pose proof (pooled_exhausted prefix label body Hp Hb1 Hb2 w Hidle Hused)
      as Hrun.
    specialize (Hp w). specialize (Hc w). specialize (Hx w). unfold keeps in *.
    destruct (prefix w) as [[a|e] w1]; simpl in *.
    - destruct Hrun as [_ ->]. by eexists _, _.
    - rewrite Hrun. by eexists _, _. }
  destruct op as [|text|query]; simpl.
  - rewrite _create_table_pooled. apply H; intros; pooled_hyps.
  - rewrite ingest_pooled. apply H; intros; pooled_hyps.
  - rewrite bind_ret_unit, retrieve_pooled.
    destruct (H _ _ (text_embedding query) (error_label (OpRetrieve query))
                retrieve_body) as (e & w' & E & ?); [intros; pooled_hyps..|].
    rewrite E. by eexists _, _.
Qed.

(** *** Transactions *)

Lemma concat_pages {X} (n k : nat) (l : list X) :
  0 < n → length l ≤ k → concat (pages n k l) = l.
Proof.
  intros Hn. revert l. induction k as [|k IH]; intros l Hl.
  - by destruct l; [|simpl in Hl; lia].
  - destruct l as [|x l]; [done|]. cbn [pages concat].
    rewrite IH, take_drop; [done|].
    rewrite length_drop. simpl in *. lia.
Qed.

Lemma concat_paginate {X} (l : list X) : concat (paginate l 100) = l.
Proof. apply concat_pages; lia. Qed.

Lemma imap_rows_data (g : nat → Z) (values : list (string * list float)) :
  row_data <$> imap (λ i v, {| row_id := g i; row_text_chunk := v.1;
                               row_embedding := v.2 |}) values = values.
Proof.
  revert g. induction values as [|[t v] values IH]; intros g; [done|].
  rewrite imap_cons, fmap_cons. f_equal. apply (IH (g ∘ S)).
Qed.

Lemma new_rows_data start (values : list (string * list float)) :
  row_data <$> new_rows start values = values.
Proof. apply (imap_rows_data (λ i, (start + Z.of_nat i)%Z)). Qed.

Lemma working_begin (w : World) :
  ∃ w', begin w = (Return (), w') ∧ working w' = working w ∧
        is_Some (txn w') ∧ committed w' = committed w.
Proof.
  unfold begin, working. destruct (txn w) as [d|] eqn:E.
  - exists w. by rewrite E.
  - by eexists.
Qed.

Lemma stored_rows_with_table (w : World) d tb :
  stored_rows (set_working (with_table TABLE_NAME tb d) w) = tbl_rows tb.
Proof.
  unfold stored_rows, working, with_table. cbn. by rewrite lookup_insert_eq.
Qed.

Lemma stored_rows_lookup (w : World) tb :
  tables (working w) !! TABLE_NAME = Some tb → stored_rows w = tbl_rows tb.
Proof. unfold stored_rows. by intros ->. Qed.

Lemma exec_insert_Return col_names page (w w' : World) rows :
  exec_stmt (InsertValues TABLE_NAME col_names page) w = (Return rows, w') →
  is_Some (txn w') ∧ committed w' = committed w ∧
  ∃ new, stored_rows w' = stored_rows w ++ new ∧ row_data <$> new = page.
Proof.
  unfold exec_stmt.
  destruct (tables (working w) !! TABLE_NAME) as [tb|] eqn:Etb; [|done].
  repeat case_match; try done. intros [= <- <-].
  rewrite (stored_rows_lookup w tb Etb).
  split; [done|]. split; [done|]. eexists. split; [|apply new_rows_data].
  unfold stored_rows, working. cbn [txn set_sequences set_working set_txn default
    tables tbl_rows from_option id]. unfold with_table. cbn [tables].
  by rewrite lookup_insert_eq.
Qed.

Lemma external_working (w : World) r w' :
  external w = (r, w') →
  working w' = working w ∧ txn w' = txn w ∧ committed w' = committed w.
Proof.
  unfold external. destruct (faults w) as [|[e|] rest]; by intros [= <- <-].
Qed.

Lemma cursor_execute_insert_Return col_names page (w w' : World) rows :
  cursor_execute [InsertValues TABLE_NAME col_names page] w = (Return rows, w') →
  is_Some (txn w') ∧ committed w' = committed w ∧
  ∃ new, stored_rows w' = stored_rows w ++ new ∧ row_data <$> new = page.
Proof.
  unfold cursor_execute. intros H.
  apply bind_Return_inv in H as ([] & w1 & Hb & H).
  apply bind_Return_inv in H as ([] & w2 & He & H).
  apply bind_Return_inv in H as ([] & w3 & Hx & H).
  simpl in H. apply bind_Return_inv in H as (rows' & w4 & Hs & H).
  injection H as <- <-.
  destruct (working_begin w) as (w1' & Hb' & Hw1 & _ & Hc1).
  rewrite Hb in Hb'. injection Hb' as <-.
  injection He as <-. apply external_working in Hx as (Hw3 & _ & Hc3).
  apply exec_insert_Return in Hs as (Hx4 & Hc4 & new & Hr & Hd).
  split; [done|]. split; [by rewrite Hc4, Hc3|].
  exists new. split; [|done]. rewrite Hr. unfold stored_rows.
  by rewrite Hw3; unfold working; simpl; fold (working w1); rewrite Hw1.
Qed.

Lemma execute_pages_Return col_names pgs (w w' : World) :
  execute_pages TABLE_NAME col_names pgs w = (Return (), w') →
  committed w' = committed w ∧
  (pgs = [] → w' = w) ∧ (pgs ≠ [] → is_Some (txn w')) ∧
  ∃ new, stored_rows w' = stored_rows w ++ new ∧ row_data <$> new = concat pgs.
Proof.
  revert w. induction pgs as [|page pgs IH]; intros w; simpl.
  - intros [= <-]. repeat split; [done..|]. exists []. by rewrite app_nil_r.
  - intros H. apply bind_Return_inv in H as (rows & w1 & Hp & H).
    apply cursor_execute_insert_Return in Hp as (Hx1 & Hc1 & new1 & Hr1 & Hd1).
    apply IH in H as (Hc & Hnil & Hsome & new & Hr & Hd).
    split; [by rewrite Hc|]. split; [done|]. split.
    + intros _. destruct pgs; [by rewrite (Hnil eq_refl) | by apply Hsome].
    + exists (new1 ++ new). rewrite Hr, Hr1, <- app_assoc. split; [done|].
      by rewrite fmap_app, Hd1, Hd.
Qed.

Lemma commit_cases (w : World) :
  match txn w with
  | None => commit w = (Return (), w)
  | Some d =>
      (∃ w', commit w = (Return (), w') ∧ committed w' = d ∧ txn w' = None) ∨
      (∃ e w', commit w = (Raise e, w') ∧ committed w' = committed w ∧
               txn w' = None)
  end.
Proof.
  unfold commit, external. destruct (txn w) as [d|]; [|done].
  simpl. destruct (faults w) as [|[e|] rest]; simpl;
    [left; by eexists _ | right; by eexists _, _ | left; by eexists _].
Qed.

Lemma stored_rows_idle (w : World) : txn w = None → stored_rows w = committed_rows w.
Proof. unfold stored_rows, committed_rows, working. by intros ->. Qed.

Lemma stored_rows_open (w w' : World) d :
  txn w = Some d → committed w' = d → committed_rows w' = stored_rows w.
Proof. unfold stored_rows, committed_rows, working. by intros -> ->. Qed.

Lemma committed_rows_eq (w w' : World) :
  committed w' = committed w → committed_rows w' = committed_rows w.
Proof. unfold committed_rows. by intros ->. Qed.

Lemma getconn_store (w : World) r w1 :
  getconn w = (r, w1) → committed w1 = committed w ∧ txn w1 = txn w.
Proof.
  intros E. split.
  - assert (preserves (keeps committed) getconn) as H by preserve.
    specialize (H w). by rewrite E in H.
  - assert (preserves (keeps txn) getconn) as H by preserve.
    specialize (H w). by rewrite E in H.
Qed.

Lemma putconn_committed c (w : World) : committed (putconn c w).2 = committed w.
Proof. assert (preserves (keeps committed) (putconn c)) as H by preserve. apply H. Qed.

Lemma rollback_committed (w : World) : committed (rollback w).2 = committed w.
Proof. assert (preserves (keeps committed) rollback) as H by preserve. apply H. Qed.

Lemma execute_values_committed table col_names argslist (w : World) :
  committed (execute_values table col_names argslist w).2 = committed w.
Proof.
  assert (preserves (keeps committed) (execute_values table col_names argslist))
    as H by preserve.
  apply H.
Qed.

(** A connection handed out by the pool has no transaction open: every
    operation that starts without one ends without one. *)
Lemma no_transaction_left_open op (w : World) :
  txn w = None → txn (run_op op w).2 = None.
Proof.
  intros Hidle.
  assert (∀ {X Y} (prefix : Py World X) label (body : X → Py Frame Y),
    preserves (keeps conn_pool) prefix → preserves (keeps txn) prefix →
    (∀ x, preserves same_connection (body x)) →
    (∀ x, preserves (in_frame (keeps conn_pool)) (body x)) →
    txn (pooled prefix label body w).2 = None) as H.
  { intros X Y prefix label body Hp Hx Hb1 Hb2. rewrite pooled_run by done.
    specialize (Hx w). unfold keeps in Hx.
    destruct (prefix w) as [[x|e] w1]; simpl in *; [|congruence].
    destruct (getconn w1) as [[c|e] w2] eqn:Eg.
    - apply getconn_Return in Eg as [Hu _].
      specialize (Hb2 x {| connection := Some c; world := w2 |}).
      unfold in_frame, keeps in Hb2.
      assert (∀ w3 : World, conn_pool w3 = conn_pool w2 →
                txn (putconn c w3).2 = None) as Hput.
      { intros w3 Hp3. unfold putconn.
        rewrite bool_decide_eq_true_2; [done|]. rewrite Hp3, Hu. set_solver. }
      destruct (body x _) as [[y|e] fr3]; simpl in *; by apply Hput.
    - apply getconn_store in Eg as [_ Hx2]. simpl. congruence. }
  destruct op as [|text|query]; simpl.
  - rewrite _create_table_pooled. apply H; intros; pooled_hyps.
  - rewrite ingest_pooled. apply H; intros; pooled_hyps.
  - rewrite bind_ret_unit, retrieve_pooled. apply H; intros; pooled_hyps.
Qed.

(** *** One commit *)








(** The statements [ingest] runs on its connection, from a state with no
    transaction open: either everything handed over is stored, or the
    database is what it was. *)
Lemma ingest_body_atomic pairs c (w : World) :
  txn w = None →
  match ingest_body pairs {| connection := Some c; world := w |} with
  | (Return _, fr') =>
      ∃ new, committed_rows (world fr') = committed_rows w ++ new ∧
             row_data <$> new = pair_data <$> pairs
  | (Raise _, fr') => committed (world fr') = committed w
  end.
Proof.
  intros Hidle.
  unfold ingest_body, with_connection, with_cursor, bind, lift, load_connection.
  cbn [connection world].
  pose proof (execute_values_committed TABLE_NAME (DATABASE_SCHEMA.*1)
                (pair_data <$> pairs) w) as Hc.
  fold (@pair_data float).
  destruct (execute_values _ _ _ w) as [[[]|e] w1] eqn:Ex; cbn [snd] in Hc.
  - apply execute_pages_Return in Ex as (_ & Hnil & Hsome & new & Hr & Hd).
    rewrite concat_paginate in Hd. rewrite (stored_rows_idle w Hidle) in Hr.
    unfold logger_info, emit. cbn [fst snd connection world].
    set (w2 := set_trace _ w1).
    assert (txn w2 = txn w1 ∧ committed w2 = committed w1 ∧
            stored_rows w2 = stored_rows w1) as (Hx2 & Hc2 & Hr2) by done.
    pose proof (commit_cases w2) as Hcm. rewrite Hx2 in Hcm.
    destruct (txn w1) as [d|] eqn:Ex1.
    + destruct Hcm as [(w3 & -> & Hc3 & _) | (e & w3 & -> & Hc3 & _)]; simpl.
      * exists new. split; [|done].
        by rewrite (stored_rows_open w1 w3 d Ex1 Hc3), Hr.
      * by rewrite Hc3, Hc2.
    + rewrite Hcm. simpl. exists new. split; [|done].
      by rewrite (committed_rows_eq w1 w2 Hc2), <- (stored_rows_idle w1 Ex1).
  - unfold raise. cbn [fst snd connection world].
    pose proof (rollback_committed w1) as Hrb.
    destruct (rollback w1) as [[[]|e'] w2]; simpl in *; by rewrite Hrb.
Qed.


(** *** Retrieval *)

Lemma working_eq (w w' : World) :
  committed w' = committed w → txn w' = txn w → working w' = working w.
Proof. unfold working. by intros -> ->. Qed.

Lemma stored_rows_eq (w w' : World) :
  working w' = working w → stored_rows w' = stored_rows w.
Proof. unfold stored_rows. by intros ->. Qed.

Lemma cursor_execute_one_Return s (w w' : World) rows :
  cursor_execute [s] w = (Return rows, w') →
  ∃ w1, working w1 = working w ∧ exec_stmt s w1 = (Return rows, w').
Proof.
  unfold cursor_execute. intros H.
  apply bind_Return_inv in H as ([] & w1 & Hb & H).
  apply bind_Return_inv in H as ([] & w2 & He & H).
  apply bind_Return_inv in H as ([] & w3 & Hx & H).
  simpl in H. apply bind_Return_inv in H as (rows' & w4 & Hs & H).
  injection H as <- <-.
  destruct (working_begin w) as (w1' & Hb' & Hw1 & _).
  rewrite Hb in Hb'. injection Hb' as <-.
  injection He as <-. apply external_working in Hx as (Hw3 & _).
  exists w3. split; [|done]. rewrite Hw3. exact Hw1.
Qed.

Lemma register_vector_Return (w w' : World) :
  register_vector w = (Return (), w') → working w' = working w.
Proof.
  unfold register_vector. intros H.
  apply bind_Return_inv in H as (rows & w1 & Hc & H). injection H as <-.
  apply cursor_execute_one_Return in Hc as (w0 & Hw0 & Hs).
  unfold exec_stmt in Hs. destruct (bool_decide _); [|done].
  injection Hs as _ <-. done.
Qed.

Lemma concat_singletons {X Y} (f : X → Y) (l : list X) :
  concat ((λ x, [f x]) <$> l) = f <$> l.
Proof. induction l as [|x l IH]; [done|]. rewrite !fmap_cons. simpl. by f_equal. Qed.

(** The rows the SELECT of [retrieve] gives, seen from the state it runs in. *)
Lemma select_Return q (w w' : World) rows :
  exec_stmt (SelectOrderByDistanceLimit "text_chunk" TABLE_NAME "embedding" q 5) w
    = (Return rows, w') →
  concat rows =
  row_text_chunk <$>
    take 5 (order_by (Row float) (λ r, l2_distance (row_embedding r) q)
              (stored_rows w)).
Proof.
  unfold exec_stmt, stored_rows.
  destruct (tables (working w) !! TABLE_NAME) as [tb|]; [|done].
  repeat case_match; try done. intros [= <- _]. apply concat_singletons.
Qed.

Lemma lift_Return_inv {X} (m : Py World X) o (w : World) x fr' :
  lift m {| connection := o; world := w |} = (Return x, fr') →
  ∃ w', m w = (Return x, w') ∧ fr' = {| connection := o; world := w' |}.
Proof.
  unfold lift. cbn [world connection].
  destruct (m w) as [[x'|e] w1]; [|done]. intros [= <- <-]. by eexists.
Qed.

Lemma with_cursor_bound {X} (body : Py Frame X) c (w : World) :
  with_cursor body {| connection := Some c; world := w |} =
  body {| connection := Some c; world := w |}.
Proof. done. Qed.

Lemma with_connection_Return_inv {X} (body : Py Frame X) c (w : World) x fr' :
  with_connection body {| connection := Some c; world := w |} = (Return x, fr') →
  ∃ fr1, body {| connection := Some c; world := w |} = (Return x, fr1).
Proof.
  unfold with_connection, bind at 1, load_connection at 1. cbn [connection].
  destruct (body _) as [[x'|e] fr1].
  - intros H. apply bind_Return_inv in H as ([] & fr2 & _ & H).
    injection H as <- _. by eexists.
  - intros H. by apply bind_Return_inv in H as ([] & fr2 & _ & H).
Qed.

Lemma retrieve_body_Return q c (w : World) res fr' :
  retrieve_body q {| connection := Some c; world := w |} = (Return res, fr') →
  res = row_text_chunk <$>
          take 5 (order_by (Row float) (λ r, l2_distance (row_embedding r) q)
                    (stored_rows w)).
Proof.
  unfold retrieve_body. intros H.
  apply bind_Return_inv in H as ([] & fr1 & Hr & H).
  apply lift_Return_inv in Hr as (w1 & Hr & ->).
  apply register_vector_Return in Hr.
  apply with_connection_Return_inv in H as (fr2 & H).
  rewrite with_cursor_bound in H.
  apply bind_Return_inv in H as (rows & fr3 & Hc & H). injection H as <- _.
  apply lift_Return_inv in Hc as (w2 & Hc & _).
  apply cursor_execute_one_Return in Hc as (w0 & Hw0 & Hs).
  apply select_Return in Hs. rewrite Hs.
  by rewrite (stored_rows_eq w w0) by congruence.
Qed.

Lemma retrieve_Return query (w w' : World) res :
  retrieve query w = (Return res, w') →
  ∃ query_embedding w1,
    text_embedding query w = (Return query_embedding, w1) ∧
    res = row_text_chunk <$>
            take 5 (order_by (Row float)
                      (λ r, l2_distance (row_embedding r) query_embedding)
                      (stored_rows w)).
Proof.
  rewrite retrieve_pooled, pooled_run; [|intros; pooled_hyps..].
  assert (preserves (keeps committed) (text_embedding query)) as Hc1 by preserve.
  assert (preserves (keeps txn) (text_embedding query)) as Hx1 by preserve.
  specialize (Hc1 w). specialize (Hx1 w). unfold keeps in *.
  destruct (text_embedding query w) as [[qv|e] w1]; simpl in *; [|done].
  destruct (getconn w1) as [[c|e] w2] eqn:Eg; [|done].
  apply getconn_store in Eg as [Hc2 Hx2].
  destruct (retrieve_body qv _) as [[res'|e] fr3] eqn:Eb; [|done].
  intros [= -> _]. exists qv, w1. split; [done|].
  apply retrieve_body_Return in Eb. rewrite Eb.
  rewrite (stored_rows_eq w w2); [done|]. apply working_eq; congruence.
Qed.

Lemma retrieve_at_most_5 query (w w' : World) res :
  retrieve query w = (Return res, w') → length res ≤ 5.
Proof.
  intros H. apply retrieve_Return in H as (qv & w1 & _ & ->).
  rewrite length_fmap, length_take. lia.
Qed.


(** *** The conversation *)

Lemma send_message_Return message (w w1 : World) response :
  send_message message w = (Return response, w1) →
  chat_session w1 = chat_session w ++ [(message, response)] ∧
  chat_history w1 = chat_history w.
Proof.
  unfold send_message, bind, emit, external. simpl.
  destruct (faults w) as [|[e|] rest]; simpl; [|done|]; by intros [= <- <-].
Qed.

Lemma send_message_history message (w : World) :
  chat_history (send_message message w).2 = chat_history w.
Proof.
  assert (preserves (keeps chat_history) (send_message message)) as H by preserve.
  apply H.
Qed.

Lemma retrieve_chat query (w : World) :
  chat_history (retrieve query w).2 = chat_history w ∧
  chat_session (retrieve query w).2 = chat_session w.
Proof.
  split.
  - assert (preserves (keeps chat_history) (retrieve query)) as H by preserve.
    apply H.
  - assert (preserves (keeps chat_session) (retrieve query)) as H by preserve.
    apply H.
Qed.

(** C1, as the code has it.  A turn that ends normally has sent the chat
    service the history joined by newlines in an empty-query prompt, has
    retrieved at most five chunks for the query, and has then sent the query
    with, as context, the stripped first response immediately followed by
    the chunks joined by newlines: nothing stands between the response and
    the first chunk.  The session has grown by these two exchanges, and the
    history by the query itself. *)
Theorem turn_context query (w w' : World) :
  turn query w = (Return (), w') →
  ∃ response_1 w1 similar_chunks w2 response_2,
    let model_input_1 := prompt_template_format "" (join nl (chat_history w)) in
    let model_input_2 :=
      prompt_template_format query
        (strip response_1 +:+ join nl similar_chunks) in
    send_message model_input_1 w = (Return response_1, w1) ∧
    retrieve query w1 = (Return similar_chunks, w2) ∧
    length similar_chunks ≤ 5 ∧
    (send_message model_input_2 w2).1 = Return response_2 ∧
    chat_session w' =
      chat_session w ++ [(model_input_1, response_1); (model_input_2, response_2)] ∧
    chat_history w' = chat_history w ++ [query].
Proof.
  unfold turn. intros H.
  apply bind_Return_inv in H as (history & w0 & Hh & H). injection Hh as <- <-.
  apply bind_Return_inv in H as (response_1 & w1 & H1 & H).
  apply bind_Return_inv in H as (similar_chunks & w2 & Hr & H).
  apply bind_Return_inv in H as (response_2 & w3 & H2 & H).
  apply bind_Return_inv in H as ([] & w4 & Hp & H).
  injection Hp as <-. injection H as <-.
  exists response_1, w1, similar_chunks, w2, response_2. cbn zeta.
  pose proof (retrieve_chat query w1) as [Hrh Hrs]. rewrite Hr in Hrh, Hrs.
  apply send_message_Return in H1 as H1'. destruct H1' as [Hs1 Hh1].
  apply send_message_Return in H2 as H2'. destruct H2' as [Hs2 Hh2].
  simpl in *. repeat split; [done | done | by eapply retrieve_at_most_5
                            | by rewrite H2 | | ].
  - by rewrite Hs2, Hrs, Hs1, <- app_assoc.
  - by rewrite Hh2, Hrh, Hh1.
Qed.

(** C7, as the code has it.  Nothing in the loop catches an exception: when
    the retrieval or a call to the chat service raises during a turn, that
    exception ends the loop, whatever lines are still to be read; the history
    is as it was before the turn. *)
Theorem failed_turn_ends_session query lines (w : World) e w' :
  String.eqb query "quit" = false →
  turn_fails_with query w e w' →
  chat_loop (query :: lines) w = (Raise e, w') ∧
  chat_history w' = chat_history w.
Proof.
  intros Hq Hfail. simpl. rewrite Hq.
  assert (turn query w = (Raise e, w') ∧ chat_history w' = chat_history w)
    as [Ht Hh]; [|by rewrite (bind_Raise _ _ _ _ _ Ht)].
  unfold turn, get_chat_history. unfold bind at 1.
  destruct Hfail as [H1 | (response_1 & w1 & H1 & [Hr | (chunks & w2 & Hr & H2)])].
  - rewrite (bind_Raise _ _ _ _ _ H1). split; [done|].
    pose proof (send_message_history
                  (prompt_template_format "" (join nl (chat_history w))) w) as Hh.
    by rewrite H1 in Hh.
  - rewrite (bind_Return _ _ _ _ _ H1), (bind_Raise _ _ _ _ _ Hr).
    split; [done|]. apply send_message_Return in H1 as [_ <-].
    pose proof (retrieve_chat query w1) as [Hh _]. by rewrite Hr in Hh.
  - rewrite (bind_Return _ _ _ _ _ H1), (bind_Return _ _ _ _ _ Hr),
      (bind_Raise _ _ _ _ _ H2).
    split; [done|]. apply send_message_Return in H1 as [_ <-].
    pose proof (retrieve_chat query w1) as [Hh _]. rewrite Hr in Hh.
    simpl in Hh. rewrite <- Hh.
    pose proof (send_message_history
                  (prompt_template_format query
                     (strip response_1 +:+ join nl chunks)) w2) as Hh2.
    by rewrite H2 in Hh2.
Qed.

(** *** Creating the table *)

Lemma working_set_working d (w : World) : working (set_working d w) = d.
Proof. done. Qed.

Lemma exec_create_table_fresh cols (w : World) :
  tables (working w) !! TABLE_NAME = None →
  "vector" ∈ extensions (working w) →
  exec_stmt (CreateTableIfNotExists TABLE_NAME cols) w =
  (Return [],
   set_sequences (sequences w ++ [1%Z])
     (set_working
        (with_table TABLE_NAME
           {| tbl_cols := cols; tbl_seq := length (sequences w);
              tbl_rows := [] |} (working w)) w)).
Proof.
  intros Hnone Hext. unfold exec_stmt. rewrite Hnone.
  by rewrite (bool_decide_eq_true_2 _ Hext), andb_false_r.
Qed.

Lemma creation_script_run (w : World) :
  ∃ w' d tb,
    run_script table_creation_script [] w = (Return [], w') ∧
    faults w' = faults w ∧ conn_pool w' = conn_pool w ∧
    committed w' = committed w ∧ txn w' = Some d ∧
    tables d !! TABLE_NAME = Some tb ∧
    tbl_cols tb = ("id", SERIAL_PRIMARY_KEY) :: DATABASE_SCHEMA ∧
    tbl_rows tb = [].
Proof.
  unfold table_creation_script. cbn [run_script].
  set (d1 := {| extensions := {["vector"]} ∪ extensions (working w);
                tables := tables (working w) |}).
  set (d2 := {| extensions := extensions d1;
                tables := delete TABLE_NAME (tables d1) |}).
  rewrite (bind_Return _ _ w [] (set_working d1 w)) by done.
  rewrite (bind_Return _ _ _ [] (set_working d2 (set_working d1 w))) by done.
  erewrite bind_Return; [|apply exec_create_table_fresh].
  - eexists _, _, _. split; [reflexivity|]. repeat split; try reflexivity.
    + unfold with_table. cbn [tables]. apply lookup_insert_eq.
    + reflexivity.
    + reflexivity.
  - rewrite working_set_working. apply lookup_delete_eq.
  - rewrite working_set_working. subst d2 d1. cbn [extensions]. set_solver.
Qed.

Lemma getconn_calm (w : World) :
  faults w = [] → length (used (conn_pool w)) < maxconn (conn_pool w) →
  ∃ c w1, getconn w = (Return c, w1) ∧ faults w1 = [] ∧
          maxconn (conn_pool w1) = maxconn (conn_pool w) ∧
          committed w1 = committed w.
Proof.
  intros Hf Hlt. unfold getconn.
  destruct (idle (conn_pool w)) as [|c rest]; [|by eexists _, _].
  destruct (Nat.eqb_spec (length (used (conn_pool w))) (maxconn (conn_pool w)));
    [lia|].
  unfold bind, external. rewrite Hf. by eexists _, _.
Qed.

Lemma create_body_calm c (w : World) :
  faults w = [] →
  ∃ w' tb,
    create_body {| connection := Some c; world := w |} =
      (Return (), {| connection := Some c; world := w' |}) ∧
    faults w' = [] ∧ conn_pool w' = conn_pool w ∧
    tables (committed w') !! TABLE_NAME = Some tb ∧
    tbl_cols tb = ("id", SERIAL_PRIMARY_KEY) :: DATABASE_SCHEMA ∧
    tbl_rows tb = [].
Proof.
  intros Hf.
  destruct (working_begin w) as (w1 & Hb & _ & _ & _).
  assert (faults w1 = [] ∧ conn_pool w1 = conn_pool w) as [Hf1 Hp1].
  { revert Hb. unfold begin. destruct (txn w); by intros [= <-]. }
  set (w2 := set_trace (trace w1 ++ [EvExecute table_creation_script]) w1).
  assert (faults w2 = []) as Hf2 by done.
  destruct (creation_script_run w2)
    as (w3 & d & tb & Hrun & Hf3 & Hp3 & Hc3 & Hx3 & Htb & Hcols & Hrows).
  assert (cursor_execute table_creation_script w = (Return [], w3)) as Hce.
  { unfold cursor_execute. rewrite (bind_Return _ _ _ _ _ Hb).
    rewrite (bind_Return _ _ w1 () w2) by done.
    rewrite (bind_Return _ _ w2 () w2); [done|].
    unfold external. by rewrite Hf2. }
  assert (∃ w4, commit w3 = (Return (), w4) ∧ faults w4 = [] ∧
                conn_pool w4 = conn_pool w3 ∧ committed w4 = d)
    as (w4 & Hcm & Hf4 & Hp4 & Hc4).
  { unfold commit, external. rewrite Hx3. cbn [faults set_txn].
    rewrite Hf3, Hf2. eexists. split; [reflexivity|]. simpl.
    by rewrite Hf3, Hf2. }
  exists w4, tb. split; [|by rewrite Hc4, Hp4, Hp3].
  unfold create_body, with_connection, with_cursor, bind, lift, load_connection.
  cbn [connection world]. rewrite Hce. cbn [connection world fst snd ret].
  by rewrite Hcm.
Qed.

Lemma _create_table_calm (w : World) :
  faults w = [] → length (used (conn_pool w)) < maxconn (conn_pool w) →
  ∃ w1 tb,
    _create_table w = (Return (), w1) ∧ faults w1 = [] ∧
    used (conn_pool w1) = used (conn_pool w) ∧
    maxconn (conn_pool w1) = maxconn (conn_pool w) ∧
    tables (committed w1) !! TABLE_NAME = Some tb ∧
    tbl_cols tb = ("id", SERIAL_PRIMARY_KEY) :: DATABASE_SCHEMA ∧
    tbl_rows tb = [].
Proof.
  intros Hf Hlt.
  assert (used (conn_pool (_create_table w).2) = used (conn_pool w)) as Hused.
  { rewrite _create_table_pooled. apply pooled_balanced; intros; pooled_hyps. }
  set (w0 := (logger_info
                (table_creation_query
                   (join ", " ((λ '(col_name, col_type),
                                  col_name +:+ " " +:+ show_sql_type col_type)
                                 <$> DATABASE_SCHEMA))) w).2).
  destruct (getconn_calm w0) as (c & w2 & Hg & Hf2 & Hm2 & _); [done..|].
  destruct (create_body_calm c w2 Hf2) as (w3 & tb & Hb & Hf3 & Hp3 & Htb).
  assert (_create_table w = (Return (), (putconn c w3).2)) as Hrun.
  { rewrite _create_table_pooled, pooled_run; [|intros; pooled_hyps..].
    change (logger_info _ w) with (Return (), w0). cbv beta iota.
    by rewrite Hg, Hb. }
  rewrite Hrun in Hused. cbn [snd] in Hused.
  exists (putconn c w3).2, tb. split; [done|].
  assert (preserves (keeps faults) (putconn c)) as Kf by preserve.
  rewrite (Kf w3), putconn_committed. repeat split; [done | done | | apply Htb..].
  unfold putconn. destruct (bool_decide _); cbn; by rewrite ?Hp3, ?Hm2.
Qed.

(** C9. Creating the table twice in a row, with the pool not exhausted and
    no call failing, raises nothing, and after the second call as after the
    first the table is there, with the identifier column followed by the
    columns of [DATABASE_SCHEMA], and without rows. *)
Theorem create_table_twice (w : World) :
  faults w = [] →
  length (used (conn_pool w)) < maxconn (conn_pool w) →
  ∃ w1 w2 tb1 tb2,
    _create_table w = (Return (), w1) ∧
    _create_table w1 = (Return (), w2) ∧
    tables (committed w1) !! TABLE_NAME = Some tb1 ∧
    tables (committed w2) !! TABLE_NAME = Some tb2 ∧
    tbl_cols tb1 = ("id", SERIAL_PRIMARY_KEY) :: DATABASE_SCHEMA ∧
    tbl_cols tb2 = tbl_cols tb1 ∧
    tbl_rows tb1 = [] ∧ tbl_rows tb2 = [].
Proof.
  intros Hf Hlt.
  destruct (_create_table_calm w Hf Hlt)
    as (w1 & tb1 & H1 & Hf1 & Hu1 & Hm1 & Ht1 & Hc1 & Hr1).
  destruct (_create_table_calm w1 Hf1)
    as (w2 & tb2 & H2 & _ & _ & _ & Ht2 & Hc2 & Hr2); [by rewrite Hu1, Hm1|].
  exists w1, w2, tb1, tb2. by rewrite Hc2, Hc1.
Qed.


(** * Further properties of the notebook's functions *)

(** ** Embedding the chunks *)

Lemma text_embedding_cases text (w : World) :
  (∃ e w', text_embedding text w = (Raise e, w') ∧
           (trace w' = trace w ∨ trace w' = trace w ++ [embed_request text])) ∨
  (∃ vector w', text_embedding text w = (Return vector, w') ∧
                last (get_embeddings [text]) = Some vector ∧
                trace w' = trace w ++ [embed_request text]).
Proof.
  unfold text_embedding, from_pretrained, model_get_embeddings, bind, external,
    emit, ret, raise, embed_request.
  simpl. destruct (faults w) as [|[e|] [|[e'|] rest]] eqn:Hf; simpl;
    rewrite ?Hf; simpl;
    destruct (last (get_embeddings [text])) as [v|];
    first [ right; eexists _, _; split; [reflexivity|]; split; reflexivity
          | left; eexists _, _; split; [reflexivity|]; simpl; auto ].
Qed.

Lemma split_input_to_chunks_trace text :
  preserves (keeps trace) (split_input_to_chunks text).
Proof. preserve. Qed.

Lemma embedding_loop chunks (w : World) :
  match for_each (λ curr_chunk,
          let! curr_embedding := text_embedding curr_chunk in
          ret {| te_text := curr_chunk; te_embedding := curr_embedding |})
        chunks w with
  | (Return pairs, w') =>
      te_text <$> pairs = chunks ∧
      Forall (λ p, last (get_embeddings [te_text p]) = Some (te_embedding p))
        pairs ∧
      trace w' = trace w ++ (embed_request <$> chunks)
  | (Raise e, w') =>
      ∃ k, k ≤ length chunks ∧
           trace w' = trace w ++ (embed_request <$> take k chunks)
  end.
Proof.
  revert w; induction chunks as [|c chunks IH]; intros w.
  { simpl. by rewrite app_nil_r. }
  cbn [for_each]. unfold bind at 1. unfold bind at 1.
  destruct (text_embedding_cases c w)
    as [(e & w1 & -> & Ht)|(v & w1 & -> & Hv & Ht)].
  - destruct Ht as [Ht|Ht].
    + exists 0. split; [lia|]. by rewrite Ht, app_nil_r.
    + exists 1. split; [simpl; lia|]. by rewrite Ht.
  - cbn [ret]. unfold bind at 1. specialize (IH w1).
    destruct (for_each _ chunks w1) as [[pairs|e] w2].
    + destruct IH as (Htexts & Hvecs & Htr). cbn [ret].
      split; [by rewrite fmap_cons, Htexts|].
      split; [by constructor|].
      by rewrite Htr, Ht, <- app_assoc.
    + destruct IH as (k & Hk & Htr). exists (S k).
      split; [simpl; lia|]. by rewrite Htr, Ht, <- app_assoc.
Qed.

Lemma split_input_to_chunks_faults text :
  preserves (keeps faults) (split_input_to_chunks text).
Proof. preserve. Qed.

Lemma split_input_to_chunks_run text (w : World) :
  ∃ w1, split_input_to_chunks text w = (split_text the_text_splitter text, w1) ∧
        trace w1 = trace w ∧ faults w1 = faults w.
Proof.
  exists (split_input_to_chunks text w).2. split; [|split].
  - rewrite <- split_input_to_chunks_result with (w := w).
    by destruct (split_input_to_chunks text w).
  - apply (split_input_to_chunks_trace text w).
  - apply (split_input_to_chunks_faults text w).
Qed.

Lemma get_text_embedding_pairs_run text (w : World) :
  ∃ w1, (trace w1 = trace w ∧ faults w1 = faults w) ∧
    get_text_embedding_pairs text w =
      match split_text the_text_splitter text with
      | Return chunks =>
          for_each (λ curr_chunk,
            let! curr_embedding := text_embedding curr_chunk in
            ret {| te_text := curr_chunk; te_embedding := curr_embedding |})
            chunks
            (set_trace
               (trace w1 ++
                [EvLog "INFO"
                   ("Number of chunks generated: " +:+ pretty (length chunks))])
               w1)
      | Raise e => (Raise e, w1)
      end.
Proof.
  unfold get_text_embedding_pairs. unfold bind at 1.
  destruct (split_input_to_chunks_run text w) as (w1 & -> & Ht & Hf).
  exists w1. split; [done|].
  by destruct (split_text the_text_splitter text).
Qed.

Lemma get_text_embedding_pairs_Return text (w w' : World) pairs :
  get_text_embedding_pairs text w = (Return pairs, w') →
  split_text the_text_splitter text = Return (te_text <$> pairs) ∧
  Forall (λ p, last (get_embeddings [te_text p]) = Some (te_embedding p)) pairs.
Proof.
  destruct (get_text_embedding_pairs_run text w) as (w1 & _ & ->).
  destruct (split_text the_text_splitter text) as [chunks|e]; [|done].
  match goal with |- context [for_each ?f chunks ?w2] =>
    pose proof (embedding_loop chunks w2) as Hloop;
    destruct (for_each f chunks w2) as [[ps|e] w3] end; [|done].
  intros [= -> ->]. destruct Hloop as (-> & Hvec & _). done.
Qed.

(** X1. When [get_text_embedding_pairs] returns, it returns one pair per chunk
    of the segmentation, in the order of the chunks: the texts of the pairs
    are exactly the chunks, and the vector of each pair is the last embedding
    the service gives for that pair's text alone. *)
Theorem pairs_follow_chunks text (w w' : World) pairs :
  get_text_embedding_pairs text w = (Return pairs, w') →
  split_text the_text_splitter text = Return (te_text <$> pairs) ∧
  Forall (λ p, last (get_embeddings [te_text p]) = Some (te_embedding p)) pairs.
Proof. apply get_text_embedding_pairs_Return. Qed.

(** X2. Whatever happens, [get_text_embedding_pairs] asks for embeddings one
    chunk at a time and in the order of the chunks: after logging the number
    of chunks its requests are single-text requests for a prefix of the
    chunks, the whole list when it returns.  When the segmentation itself
    fails, that exception is raised and nothing is logged or requested. *)
Theorem embedding_requests_follow_chunks text (w : World) :
  match split_text the_text_splitter text with
  | Return chunks =>
      ∃ k, k ≤ length chunks ∧
        trace (get_text_embedding_pairs text w).2 =
          trace w ++
          EvLog "INFO" ("Number of chunks generated: " +:+ pretty (length chunks))
          :: (embed_request <$> take k chunks) ∧
        (∀ pairs, (get_text_embedding_pairs text w).1 = Return pairs →
                  k = length chunks)
  | Raise e =>
      (get_text_embedding_pairs text w).1 = Raise e ∧
      trace (get_text_embedding_pairs text w).2 = trace w
  end.
Proof.
  destruct (get_text_embedding_pairs_run text w) as (w1 & [Ht _] & ->).
  destruct (split_text the_text_splitter text) as [chunks|e]; [|done].
  match goal with |- context [for_each ?f chunks ?w2] =>
    pose proof (embedding_loop chunks w2) as Hloop;
    destruct (for_each f chunks w2) as [[ps|e] w3] end.
  - destruct Hloop as (_ & _ & Htr). exists (length chunks).
    split; [done|]. split; [|done].
    rewrite firstn_all. cbn [snd]. rewrite Htr. cbn. by rewrite Ht, <- app_assoc.
  - destruct Hloop as (k & Hk & Htr). exists k.
    split; [done|]. split; [|done].
    cbn [snd]. rewrite Htr. cbn. by rewrite Ht, <- app_assoc.
Qed.

(** X3. When neither the loading of the model nor the request fails,
    [text_embedding] returns the values of the last embedding of the
    response; over an empty response the local [vector] is never bound and
    the call raises [UnboundLocalError], it does not return an empty
    vector. *)
Theorem text_embedding_last_or_unbound text (w : World) :
  Forall (λ fault, fault = None) (take 2 (faults w)) →
  (text_embedding text w).1 =
    match last (get_embeddings [text]) with
    | Some vector => Return vector
    | None => Raise (UnboundLocalError "vector")
    end.
Proof.
  intros Hcalm.
  unfold text_embedding, from_pretrained, model_get_embeddings, bind, external,
    emit, ret, raise.
  simpl. destruct (faults w) as [|[e|] [|[e'|] rest]] eqn:Hf; simpl;
    rewrite ?Hf; simpl; try by destruct (last (get_embeddings [text])).
  all: inversion Hcalm as [|?? Hfirst Hrest]; try done.
  all: by inversion Hrest.
Qed.

(** ** The store: what a failure leaves, what the pool is left with *)

Lemma commit_Raise_committed (w : World) e w' :
  commit w = (Raise e, w') → committed w' = committed w.
Proof.
  pose proof (commit_cases w) as H. destruct (txn w) as [d|].
  - destruct H as [(w1 & -> & _) | (e1 & w1 & -> & Hc & _)]; [done|].
    by intros [= _ <-].
  - by rewrite H.
Qed.

Lemma with_connection_Raise_committed {X} (body : Py Frame X) fr e fr' :
  preserves (in_frame (keeps committed)) body →
  with_connection body fr = (Raise e, fr') →
  committed (world fr') = committed (world fr).
Proof.
  intros Hb. unfold with_connection, bind at 1, load_connection.
  destruct (connection fr) as [c|]; [|by intros [= _ <-]].
  specialize (Hb fr). unfold in_frame, keeps in Hb.
  destruct (body fr) as [[x|e1] fr1]; simpl in Hb; unfold bind, lift, ret, raise.
  - destruct (commit (world fr1)) as [[[]|e2] w2] eqn:Ec; [done|].
    apply commit_Raise_committed in Ec. intros [= _ <-]. simpl. congruence.
  - pose proof (rollback_committed (world fr1)) as Hr.
    destruct (rollback (world fr1)) as [[[]|e2] w2]; intros [= _ <-]; simpl in *;
      congruence.
Qed.

Lemma bodies_Raise_committed op e :
  match op with
  | OpCreateTable =>
      ∀ fr fr', create_body fr = (Raise e, fr') →
                committed (world fr') = committed (world fr)
  | OpIngest _ =>
      ∀ pairs fr fr', ingest_body pairs fr = (Raise e, fr') →
                      committed (world fr') = committed (world fr)
  | OpRetrieve _ =>
      ∀ q fr fr', retrieve_body q fr = (Raise e, fr') →
                  committed (world fr') = committed (world fr)
  end.
Proof.
  destruct op as [|text|query].
  - intros fr fr'. apply with_connection_Raise_committed. preserve.
  - intros pairs fr fr'. apply with_connection_Raise_committed. preserve.
  - intros q fr fr'. unfold retrieve_body. unfold bind at 1.
    assert (preserves (in_frame (keeps committed)) (lift register_vector)) as Hr
      by preserve.
    specialize (Hr fr). unfold in_frame, keeps in Hr.
    destruct (lift register_vector fr) as [[[]|e1] fr1]; simpl in Hr.
    + intros Hw. apply with_connection_Raise_committed in Hw; [congruence|].
      preserve.
    + by intros [= _ <-].
Qed.

Lemma pooled_Raise_committed {X Y} (prefix : Py World X) label
    (body : X → Py Frame Y) (w : World) e w' :
  preserves (keeps conn_pool) prefix →
  preserves (keeps committed) prefix →
  (∀ x, preserves same_connection (body x)) →
  (∀ x, preserves (in_frame (keeps conn_pool)) (body x)) →
  (∀ x fr fr', body x fr = (Raise e, fr') →
               committed (world fr') = committed (world fr)) →
  pooled prefix label body w = (Raise e, w') →
  committed w' = committed w.
Proof.
  intros Hp Hc Hb1 Hb2 Hb. rewrite pooled_run by done.
  specialize (Hc w). unfold keeps in Hc.
  destruct (prefix w) as [[x|e0] w1]; simpl in Hc; [|by intros [= _ <-]].
  destruct (getconn w1) as [[c|e0] w2] eqn:Eg;
    apply getconn_store in Eg as [Hc2 _]; [|intros [= _ <-]; simpl; congruence].
  destruct (body x _) as [[y|e1] fr3] eqn:Eb; [done|].
  intros [= -> <-]. apply Hb in Eb. rewrite putconn_committed. simpl in *.
  congruence.
Qed.

(** X4. An operation of the store that raises has stored nothing: whenever
    [_create_table], [ingest] or [retrieve] ends with an exception, whatever
    the state it was called in and wherever the exception arose, the
    committed database is the one it started from. *)
Theorem failed_operation_changes_nothing op (w w' : World) e :
  run_op op w = (Raise e, w') → committed w' = committed w.
Proof.
  pose proof (bodies_Raise_committed op e) as Hb.
  destruct op as [|text|query]; simpl.
  - rewrite _create_table_pooled.
    apply pooled_Raise_committed; [intros; pooled_hyps..|]. intros _. apply Hb.
  - rewrite ingest_pooled.
    apply pooled_Raise_committed; [intros; pooled_hyps..|]. apply Hb.
  - intros Hr.
    assert (retrieve query w = (Raise e, w')) as Hr'.
    { revert Hr. unfold bind, ret. destruct (retrieve query w) as [[?|?] ?]; [done | by intros [= -> ->]]. }
    revert Hr'. rewrite retrieve_pooled.
    apply pooled_Raise_committed; [intros; pooled_hyps..|]. apply Hb.
Qed.

Lemma pooled_restores_pool {X Y} (prefix : Py World X) label
    (body : X → Py Frame Y) (w : World) c rest :
  preserves (keeps conn_pool) prefix →
  (∀ x, preserves same_connection (body x)) →
  (∀ x, preserves (in_frame (keeps conn_pool)) (body x)) →
  idle (conn_pool w) = c :: rest →
  length rest < minconn (conn_pool w) →
  conn_pool (pooled prefix label body w).2 = conn_pool w.
Proof.
  intros Hp Hb1 Hb2 Hidle Hmin. rewrite pooled_run by done.
  specialize (Hp w). unfold keeps in Hp.
  destruct (prefix w) as [[x|e0] w1]; simpl in Hp; [|done].
  unfold getconn. rewrite Hp, Hidle.
  unfold bind at 1 2, set_pool, emit, ret. cbn [fst snd].
  match goal with |- context [body x ?fr] =>
    specialize (Hb2 x fr); destruct (body x fr) as [[y|e1] fr3] end;
    unfold in_frame, keeps in Hb2; simpl in Hb2.
  all: unfold putconn, logger_error, emit; simpl; rewrite Hb2; simpl.
  all: rewrite bool_decide_eq_true_2 by set_solver.
  all: rewrite Nat.eqb_refl.
  all: destruct (Nat.ltb_spec (length rest) (minconn (conn_pool w))); [|lia].
  all: unfold bind, set_pool; simpl.
  all: destruct (conn_pool w); simpl in *; by subst.
Qed.


(** ** Retrieval reads only *)

Local Abbreviation unwritten := (@unwritten float).

Global Instance unwritten_preorder : PreOrder unwritten.
Proof.
  split.
  - by intros w.
  - intros w1 w2 w3 H12 H23 H1. destruct (H12 H1) as [H2 Hc2].
    destruct (H23 H2) as [H3 Hc3]. split; congruence.
Qed.

Lemma unwritten_keeps {X} (m : Py World X) :
  preserves (keeps txn) m → preserves (keeps committed) m →
  preserves unwritten m.
Proof.
  intros Hx Hc w Hw. specialize (Hx w). specialize (Hc w).
  unfold keeps, working in *. rewrite Hx, Hc. done.
Qed.

Lemma unwritten_begin : preserves unwritten begin.
Proof.
  intros w. unfold begin, unwritten, working.
  destruct (txn w) as [d|] eqn:Ex; simpl; [by rewrite Ex|done].
Qed.

Lemma unwritten_commit : preserves unwritten commit.
Proof.
  intros w. unfold commit, unwritten, working, external, emit.
  destruct (txn w) as [d|] eqn:Ex; simpl; [|by rewrite Ex].
  intros ->. by destruct (faults w) as [|[e|] rest].
Qed.

Lemma unwritten_rollback : preserves unwritten rollback.
Proof.
  intros w. unfold rollback, unwritten, working, external, emit, bind.
  destruct (txn w) as [d|] eqn:Ex; simpl; [|by rewrite Ex].
  intros _. by destruct (faults w) as [|[e|] rest].
Qed.

Lemma unwritten_putconn c : preserves unwritten (putconn c).
Proof.
  intros w. unfold putconn, unwritten, working.
  destruct (bool_decide _); simpl; [|done]. intros _. done.
Qed.

Lemma unwritten_select s :
  match s with
  | SelectOrderByDistanceLimit _ _ _ _ _ | SelectVectorType => True
  | _ => False
  end →
  preserves unwritten (exec_stmt s).
Proof.
  intros Hs w. unfold exec_stmt. destruct s; try done; repeat case_match; done.
Qed.

Ltac unwritten_step :=
  lazymatch goal with
  | |- preserves _ (cursor_execute _) => unfold cursor_execute
  | |- preserves _ (run_script _ _) => cbn [run_script]
  | |- preserves unwritten (exec_stmt _) => by apply unwritten_select
  | |- preserves unwritten begin => apply unwritten_begin
  | |- preserves unwritten commit => apply unwritten_commit
  | |- preserves unwritten rollback => apply unwritten_rollback
  | |- preserves unwritten (putconn _) => apply unwritten_putconn
  | |- preserves unwritten (emit _) => apply unwritten_keeps; preserve
  | |- preserves unwritten external => apply unwritten_keeps; preserve
  | |- preserves unwritten getconn => apply unwritten_keeps; preserve
  | _ => preserve_step
  end.

Lemma unwritten_retrieve query : preserves unwritten (retrieve query).
Proof. repeat unwritten_step. Qed.

(** X6. [retrieve] never writes.  Called with no transaction open, as every
    operation of the store leaves its connection, it ends (with its chunks
    or with an exception) on the committed database it started from, with
    no transaction open on it. *)
Theorem retrieve_never_writes query (w : World) :
  txn w = None →
  committed (retrieve query w).2 = committed w ∧
  working (retrieve query w).2 = committed w.
Proof.
  intros Hidle. destruct (unwritten_retrieve query w) as [Hw Hc].
  - unfold working. by rewrite Hidle.
  - split; congruence.
Qed.

(** ** Ingesting a text without chunks *)

(** X7. A text that the segmentation cuts into no chunk is ingested without
    a word to the embedding service or the database: with no transaction
    open and a connection idle in the pool, [ingest] returns, whatever the
    state of the database (the table need not exist), having borrowed the
    connection, logged that the table was updated although nothing was
    inserted or committed, and given the connection back. *)
Theorem ingest_of_no_chunks text (w : World) c rest :
  split_text the_text_splitter text = Return [] →
  txn w = None →
  idle (conn_pool w) = c :: rest →
  ∃ w', ingest text w = (Return (), w') ∧
        committed w' = committed w ∧
        trace w' =
          trace w ++
          [EvLog "INFO" "Number of chunks generated: 0"; EvGetconn c;
           EvLog "INFO" "Updated table with embedding pairs"; EvPutconn c].
Proof.
  intros Hsplit Hidle Hpool.
  rewrite ingest_pooled, pooled_run; [|intros; pooled_hyps..].
  assert (preserves (keeps txn) (get_text_embedding_pairs text)) as Hx by preserve.
  assert (preserves (keeps committed) (get_text_embedding_pairs text)) as Hc
    by preserve.
  assert (preserves (keeps conn_pool) (get_text_embedding_pairs text)) as Hp
    by preserve.
  specialize (Hx w). specialize (Hc w). specialize (Hp w). unfold keeps in *.
  destruct (get_text_embedding_pairs_run text w) as (w0 & [Ht _] & Hrun).
  rewrite Hsplit in Hrun. cbn [for_each] in Hrun. unfold ret in Hrun.
  rewrite Hrun in *.
  cbn [fst snd] in *. set (w1 := set_trace _ w0) in *.
  assert (trace w1 = trace w ++ [EvLog "INFO" "Number of chunks generated: 0"])
    as Ht1 by (subst w1; simpl; by rewrite Ht).
  clearbody w1. clear Hrun.
  unfold getconn. rewrite Hp, Hpool.
  unfold bind at 1 2, set_pool, emit, ret. cbn [fst snd].
  unfold ingest_body, with_connection, with_cursor, bind, lift, load_connection,
    execute_values, logger_info, emit, ret.
  cbn -[putconn]. unfold commit. cbn -[putconn]. rewrite Hx, Hidle.
  cbn -[putconn]. unfold putconn. cbn.
  rewrite bool_decide_eq_true_2 by set_solver. cbn.
  eexists. split; [reflexivity|]. cbn. split; [done|].
  rewrite Ht1, <- !app_assoc. done.
Qed.

(** ** What ingestion stores, and what retrieval then sees *)

Lemma ingest_Return text (w w' : World) :
  txn w = None →
  ingest text w = (Return (), w') →
  txn w' = None ∧
  ∃ new,
    committed_rows w' = committed_rows w ++ new ∧
    split_text the_text_splitter text = Return (row_text_chunk <$> new) ∧
    Forall (λ r, last (get_embeddings [row_text_chunk r]) = Some (row_embedding r))
      new.
Proof.
  intros Hidle Hrun. split.
  { pose proof (no_transaction_left_open (OpIngest text) w Hidle) as H.
    simpl in H. by rewrite Hrun in H. }
  revert Hrun. rewrite ingest_pooled, pooled_run; [|intros; pooled_hyps..].
  assert (preserves (keeps committed) (get_text_embedding_pairs text)) as Hc1
    by preserve.
  assert (preserves (keeps txn) (get_text_embedding_pairs text)) as Hx1
    by preserve.
  specialize (Hc1 w). specialize (Hx1 w). unfold keeps in *.
  destruct (get_text_embedding_pairs text w) as [[pairs|e] w1] eqn:Ep;
    simpl in *; [|done].
  apply get_text_embedding_pairs_Return in Ep as [Hsplit Hvec].
  destruct (getconn w1) as [[c|e] w2] eqn:Eg;
    apply getconn_store in Eg as [Hc2 Hx2]; [|done].
  pose proof (ingest_body_atomic pairs c w2) as Hb.
  destruct (ingest_body pairs _) as [[[]|e] fr3]; [|done].
  destruct Hb as (new & Hr & Hd); [congruence|].
  intros [= <-]. exists new.
  assert (row_text_chunk <$> new = te_text <$> pairs) as Htexts.
  { apply (f_equal (fmap fst)) in Hd. by rewrite <- !list_fmap_compose in Hd. }
  split; [|split; [by rewrite Htexts|]].
  - rewrite (committed_rows_eq _ _ (putconn_committed c (world fr3))), Hr.
    f_equal. apply committed_rows_eq. congruence.
  - clear -Hd Hvec. revert pairs Hd Hvec.
    induction new as [|r new IH]; intros [|p pairs] Hd Hvec; try done.
    injection Hd as Ht He Hd. inversion Hvec as [|?? Hp Hps]; subst.
    constructor; [|by eapply IH]. by rewrite Ht, He.
Qed.


(** X9. Ingestion only adds, and does not look at what is stored: two
    ingestions that return leave the rows that were there, then the chunks
    of the first text, then the chunks of the second.  Ingesting the same
    text twice stores its chunks twice. *)
Theorem ingest_twice_appends_twice text1 text2 (w w1 w2 : World) :
  txn w = None →
  ingest text1 w = (Return (), w1) →
  ingest text2 w1 = (Return (), w2) →
  ∃ chunks1 chunks2,
    split_text the_text_splitter text1 = Return chunks1 ∧
    split_text the_text_splitter text2 = Return chunks2 ∧
    row_text_chunk <$> committed_rows w2 =
      (row_text_chunk <$> committed_rows w) ++ chunks1 ++ chunks2.
Proof.
  intros Hidle H1 H2.
  apply ingest_Return in H1 as (Hidle1 & new1 & Hr1 & Hs1 & _); [|done].
  apply ingest_Return in H2 as (_ & new2 & Hr2 & Hs2 & _); [|done].
  exists (row_text_chunk <$> new1), (row_text_chunk <$> new2).
  split; [done|]. split; [done|].
  by rewrite Hr2, Hr1, !fmap_app, <- app_assoc.
Qed.

(** X10. Retrieval after ingestion.  Under what SQL promises of ORDER BY,
    a [retrieve] that returns after an [ingest] that returned gives texts
    among those stored before and the chunks of the ingested text, five of
    them or all if there are fewer; when at most five are stored in all, it
    gives each of them once, in some order. *)
Theorem retrieve_after_ingest text query (w w1 w2 : World) res :
  order_by_spec ext →
  txn w = None →
  ingest text w = (Return (), w1) →
  retrieve query w1 = (Return res, w2) →
  ∃ chunks,
    split_text the_text_splitter text = Return chunks ∧
    let texts := (row_text_chunk <$> committed_rows w) ++ chunks in
    (∀ t, t ∈ res → t ∈ texts) ∧
    length res = min 5 (length texts) ∧
    (length texts ≤ 5 → res ≡ₚ texts).
Proof.
  intros Hspec Hidle Hi Hr.
  apply ingest_Return in Hi as (Hidle1 & new & Hrows & Hs & _); [|done].
  apply retrieve_Return in Hr as (qv & w1' & _ & ->).
  rewrite (stored_rows_idle w1 Hidle1), Hrows.
  exists (row_text_chunk <$> new). split; [done|]. cbn zeta.
  rewrite <- fmap_app.
  set (rows := committed_rows w ++ new).
  set (key := λ r : Row float, l2_distance (row_embedding r) qv).
  destruct (Hspec (Row float) key rows) as [Hperm _].
  split; [|split].
  - intros t Ht. apply list_elem_of_fmap in Ht as (r & -> & Hr).
    apply list_elem_of_fmap. exists r. split; [done|].
    rewrite <- Hperm. by eapply (subseteq_take 5).
  - rewrite !length_fmap, length_take, Hperm. done.
  - rewrite length_fmap. intros Hfew.
    rewrite take_ge by (rewrite Hperm; done). by rewrite Hperm.
Qed.

(** ** The conversation *)

Lemma send_message_run message (w w1 : World) response :
  send_message message w = (Return response, w1) →
  response = response_text (chat_session w) message ∧
  trace w1 = trace w ++ [EvChat message].
Proof.
  unfold send_message, bind, emit, external. simpl.
  destruct (faults w) as [|[e|] rest]; simpl; [|done|]; by intros [= <- <-].
Qed.

Lemma retrieve_dialogue query :
  preserves (extends (λ ev, negb (is_dialogue_event ev))) (retrieve query).
Proof. preserve. Qed.

Lemma turn_Return query (w w' : World) :
  turn query w = (Return (), w') →
  chat_history w' = chat_history w ++ [query] ∧
  length (chat_session w') = length (chat_session w) + 2 ∧
  ∃ similar_chunks evs,
    let model_input_1 := prompt_template_format "" (join nl (chat_history w)) in
    let response_1 := response_text (chat_session w) model_input_1 in
    let model_input_2 :=
      prompt_template_format query
        (strip response_1 +:+ join nl similar_chunks) in
    let response_2 :=
      response_text (chat_session w ++ [(model_input_1, response_1)])
        model_input_2 in
    trace w' =
      trace w ++ EvChat model_input_1 :: evs ++
      [EvChat model_input_2;
       EvPrint (("Model : " +:+ strip response_2 +:+ nl +:+ nl) +:+ nl)] ∧
    Forall (λ ev, is_dialogue_event ev = false) evs.
Proof.
  unfold turn. intros H.
  apply bind_Return_inv in H as (history & w0 & Hh & H). injection Hh as <- <-.
  apply bind_Return_inv in H as (response_1 & w1 & H1 & H).
  apply bind_Return_inv in H as (similar_chunks & w2 & Hr & H).
  apply bind_Return_inv in H as (response_2 & w3 & H2 & H).
  apply bind_Return_inv in H as ([] & w4 & Hp & H).
  injection Hp as <-. injection H as <-.
  pose proof (retrieve_chat query w1) as [Hrh Hrs]. rewrite Hr in Hrh, Hrs.
  destruct (retrieve_dialogue query w1) as (evs & Hrt & Hev). rewrite Hr in Hrt.
  apply send_message_Return in H1 as H1'. destruct H1' as [Hs1 Hh1].
  apply send_message_Return in H2 as H2'. destruct H2' as [Hs2 Hh2].
  apply send_message_run in H1 as [-> Ht1].
  apply send_message_run in H2 as [-> Ht2].
  simpl in *. split; [by rewrite Hh2, Hrh, Hh1|].
  split; [rewrite Hs2, Hrs, Hs1, !length_app; simpl; lia|].
  exists similar_chunks, evs. split.
  - rewrite Ht2, Hrt, Ht1, Hrs, Hs1, <- !app_assoc.
    done.
  - eapply Forall_impl; [exact Hev|]. intros ev. simpl. by destruct (is_dialogue_event ev).
Qed.

Lemma chat_loop_Return lines (w w' : World) rest :
  chat_loop lines w = (Return rest, w') →
  ∃ queries,
    lines = queries ++ "quit" :: rest ∧
    Forall (λ query, query ≠ "quit") queries ∧
    chat_history w' = chat_history w ++ queries ∧
    length (chat_session w') = length (chat_session w) + 2 * length queries.
Proof.
  revert w. induction lines as [|query lines IH]; intros w; [done|].
  cbn [chat_loop]. destruct (String.eqb_spec query "quit") as [->|Hq].
  - intros [= -> <-]. exists []. rewrite app_nil_r. simpl. repeat split; [done|lia].
  - intros H. apply bind_Return_inv in H as ([] & w1 & Ht & H).
    apply turn_Return in Ht as (Hh & Hs & _).
    apply IH in H as (queries & -> & Hall & Hh' & Hs').
    exists (query :: queries). split; [done|]. split; [by constructor|].
    split; [by rewrite Hh', Hh, <- app_assoc|]. rewrite Hs', Hs. simpl. lia.
Qed.

(** X11. The chat cell ends normally only at the sentinel.  When the
    conversation returns, the lines read are some queries, none of them
    [quit], followed by [quit]; the lines after it are left unread; the
    history is the history from before the cell with these queries appended
    in order ([quit] itself is not appended, and the cell does not empty the
    history); and the new chat session holds two exchanges per query. *)
Theorem conversation_ends_at_quit lines (w w' : World) rest :
  conversation lines w = (Return rest, w') →
  ∃ queries,
    lines = queries ++ "quit" :: rest ∧
    Forall (λ query, query ≠ "quit") queries ∧
    chat_history w' = chat_history w ++ queries ∧
    length (chat_session w') = 2 * length queries.
Proof.
  unfold conversation, start_chat. unfold bind at 1. intros H.
  apply chat_loop_Return in H as (queries & -> & Hall & Hh & Hs).
  exists queries. by repeat split.
Qed.

(** X12. What a completed turn says, and in which order.  A turn that ends
    normally calls the chat service exactly twice: first with the history in
    an empty-query prompt, before anything is retrieved, and after the
    retrieval with the query and the refreshed context.  The one thing it
    prints, last, is [Model : ] followed by the second response stripped of
    surrounding white space and two newlines before [print]'s own. *)
Theorem turn_dialogue query (w w' : World) :
  turn query w = (Return (), w') →
  ∃ similar_chunks evs,
    let model_input_1 := prompt_template_format "" (join nl (chat_history w)) in
    let response_1 := response_text (chat_session w) model_input_1 in
    let model_input_2 :=
      prompt_template_format query
        (strip response_1 +:+ join nl similar_chunks) in
    let response_2 :=
      response_text (chat_session w ++ [(model_input_1, response_1)])
        model_input_2 in
    trace w' =
      trace w ++ EvChat model_input_1 :: evs ++
      [EvChat model_input_2;
       EvPrint (("Model : " +:+ strip response_2 +:+ nl +:+ nl) +:+ nl)] ∧
    Forall (λ ev, is_dialogue_event ev = false) evs.
Proof. intros H. by apply turn_Return in H as (_ & _ & H). Qed.

(** ** When nothing fails *)

Lemma external_calm (w : World) : faults w = [] → external w = (Return (), w).
Proof. unfold external. by intros ->. Qed.

Lemma text_embedding_calm text (w : World) vector :
  faults w = [] →
  last (get_embeddings [text]) = Some vector →
  ∃ w1, text_embedding text w = (Return vector, w1) ∧ faults w1 = [] ∧
        conn_pool w1 = conn_pool w ∧ committed w1 = committed w ∧
        txn w1 = txn w.
Proof.
  intros Hf Hv.
  unfold text_embedding, from_pretrained, model_get_embeddings, bind, external,
    emit, ret.
  simpl. rewrite Hf. simpl. rewrite Hf, Hv. by eexists.
Qed.

Lemma begin_calm (w : World) :
  faults w = [] →
  ∃ w1, begin w = (Return (), w1) ∧ faults w1 = [] ∧ working w1 = working w ∧
        is_Some (txn w1) ∧ committed w1 = committed w.
Proof.
  intros Hf. unfold begin, working. destruct (txn w) as [d|] eqn:E.
  - exists w. by rewrite E.
  - by eexists.
Qed.

(** One reading statement, sent with no call failing. *)
Lemma cursor_execute_reading s (w : World) :
  faults w = [] →
  (∀ w1 : World, working w1 = working w →
                 ∃ rows, exec_stmt s w1 = (Return rows, w1)) →
  ∃ rows w1, cursor_execute [s] w = (Return rows, w1) ∧ faults w1 = [] ∧
             working w1 = working w ∧ is_Some (txn w1) ∧
             committed w1 = committed w.
Proof.
  intros Hf Hs.
  destruct (begin_calm w Hf) as (w1 & Hb & Hf1 & Hw1 & Hx1 & Hc1).
  set (w2 := set_trace (trace w1 ++ [EvExecute [s]]) w1).
  destruct (Hs w2) as (rows & Hrows); [done|].
  exists rows, w2. split; [|done].
  unfold cursor_execute. rewrite (bind_Return _ _ _ _ _ Hb).
  rewrite (bind_Return _ _ w1 () w2) by done.
  rewrite (bind_Return _ _ w2 () w2) by (by apply external_calm).
  cbn [run_script]. by rewrite (bind_Return _ _ _ _ _ Hrows).
Qed.

Lemma commit_calm (w : World) :
  faults w = [] →
  ∃ w1, commit w = (Return (), w1) ∧ faults w1 = [] ∧
        committed w1 = working w ∧ txn w1 = None ∧ conn_pool w1 = conn_pool w.
Proof.
  intros Hf. unfold commit, working, external.
  destruct (txn w) as [d|] eqn:E; [|exists w; by rewrite E].
  simpl. rewrite Hf. by eexists.
Qed.

Lemma select_reading q (w : World) tb :
  tables (working w) !! TABLE_NAME = Some tb →
  tbl_cols tb = ("id", SERIAL_PRIMARY_KEY) :: DATABASE_SCHEMA →
  Forall (λ r, length (row_embedding r) = length q) (tbl_rows tb) →
  exec_stmt (SelectOrderByDistanceLimit "text_chunk" TABLE_NAME "embedding" q 5) w
  = (Return ((λ r, [row_text_chunk r]) <$>
               take 5 (order_by (Row float)
                         (λ r, l2_distance (row_embedding r) q) (tbl_rows tb))),
     w).
Proof.
  intros Htb Hcols Hdims. unfold exec_stmt. rewrite Htb, Hcols. cbn [lookup_col].
  cbn. assert (forallb (λ r, length (row_embedding r) =? length q) (tbl_rows tb)
               = true) as ->; [|done].
  apply forallb_forall. intros r Hr. apply Nat.eqb_eq.
  rewrite Forall_forall in Hdims. apply Hdims. by apply list_elem_of_In.
Qed.

Lemma retrieve_body_calm q c (w : World) tb :
  faults w = [] →
  "vector" ∈ extensions (working w) →
  tables (working w) !! TABLE_NAME = Some tb →
  tbl_cols tb = ("id", SERIAL_PRIMARY_KEY) :: DATABASE_SCHEMA →
  Forall (λ r, length (row_embedding r) = length q) (tbl_rows tb) →
  ∃ res fr', retrieve_body q {| connection := Some c; world := w |}
             = (Return res, fr').
Proof.
  intros Hf Hext Htb Hcols Hdims.
  destruct (cursor_execute_reading SelectVectorType w Hf)
    as (rows1 & w1 & Hreg & Hf1 & Hw1 & _).
  { intros w0 Hw0. unfold exec_stmt. rewrite Hw0.
    rewrite (bool_decide_eq_true_2 _ Hext). by eexists. }
  destruct (cursor_execute_reading
              (SelectOrderByDistanceLimit "text_chunk" TABLE_NAME "embedding" q 5)
              w1 Hf1)
    as (rows2 & w2 & Hsel & Hf2 & Hw2 & _).
  { intros w0 Hw0. eexists. apply (select_reading q w0 tb); [|done..].
    by rewrite Hw0, Hw1. }
  destruct (commit_calm w2 Hf2) as (w3 & Hcm & _).
  unfold retrieve_body, register_vector, with_connection, with_cursor, bind,
    lift, load_connection, ret.
  cbn [connection world]. rewrite Hreg. cbn [connection world fst snd].
  rewrite Hsel. cbn [connection world fst snd]. rewrite Hcm. by eexists _, _.
Qed.

Lemma retrieve_calm query (w : World) tb query_embedding :
  faults w = [] →
  length (used (conn_pool w)) < maxconn (conn_pool w) →
  last (get_embeddings [query]) = Some query_embedding →
  "vector" ∈ extensions (working w) →
  tables (working w) !! TABLE_NAME = Some tb →
  tbl_cols tb = ("id", SERIAL_PRIMARY_KEY) :: DATABASE_SCHEMA →
  Forall (λ r, length (row_embedding r) = length query_embedding) (tbl_rows tb) →
  ∃ w',
    retrieve query w =
    (Return
       (row_text_chunk <$>
          take 5 (order_by (Row float)
                    (λ r, l2_distance (row_embedding r) query_embedding)
                    (tbl_rows tb))),
     w').
Proof.
  intros Hf Hlt Hv Hext Htb Hcols Hdims.
  destruct (text_embedding_calm query w query_embedding Hf Hv)
    as (w1 & He & Hf1 & Hp1 & Hc1 & Hx1).
  destruct (getconn_calm w1 Hf1) as (c & w2 & Hg & Hf2 & _); [by rewrite Hp1|].
  apply getconn_store in Hg as Hs2. destruct Hs2 as [Hc2 Hx2].
  assert (working w2 = working w) as Hw2
    by (etrans; apply working_eq; done).
  destruct (retrieve_body_calm query_embedding c w2 tb) as (res & fr' & Hb);
    [done | by rewrite Hw2 | by rewrite Hw2 | done | done |].
  assert (retrieve query w = (Return res, (putconn c (world fr')).2)) as Hrun.
  { rewrite retrieve_pooled, pooled_run; [|intros; pooled_hyps..].
    by rewrite He, Hg, Hb. }
  exists (putconn c (world fr')).2. rewrite Hrun. f_equal. f_equal.
  apply retrieve_Return in Hrun as (qv & w1' & He' & ->).
  rewrite He in He'. injection He' as <- _.
  by rewrite (stored_rows_lookup w tb Htb).
Qed.

(** X13. With the pool not exhausted and no call failing, [retrieve]
    returns whenever the service gives an embedding for the query, the
    [vector] extension and the table with its columns are there, and the
    stored vectors have as many entries as the query's: what it returns are
    the texts of the first five rows (or of all, if fewer) in the order the
    database gives them by distance to the query. *)
Theorem retrieve_returns query (w : World) tb query_embedding :
  faults w = [] →
  length (used (conn_pool w)) < maxconn (conn_pool w) →
  last (get_embeddings [query]) = Some query_embedding →
  "vector" ∈ extensions (working w) →
  tables (working w) !! TABLE_NAME = Some tb →
  tbl_cols tb = ("id", SERIAL_PRIMARY_KEY) :: DATABASE_SCHEMA →
  Forall (λ r, length (row_embedding r) = length query_embedding) (tbl_rows tb) →
  ∃ w',
    retrieve query w =
    (Return
       (row_text_chunk <$>
          take 5 (order_by (Row float)
                    (λ r, l2_distance (row_embedding r) query_embedding)
                    (tbl_rows tb))),
     w').
Proof. apply retrieve_calm. Qed.

(** X14. Retrieval from the empty table.  Under the same conditions and
    what SQL promises of ORDER BY, [retrieve] on a table without rows
    returns the empty list; it does not raise. *)
Theorem retrieve_from_empty_table query (w : World) tb query_embedding :
  order_by_spec ext →
  faults w = [] →
  length (used (conn_pool w)) < maxconn (conn_pool w) →
  last (get_embeddings [query]) = Some query_embedding →
  "vector" ∈ extensions (working w) →
  tables (working w) !! TABLE_NAME = Some tb →
  tbl_cols tb = ("id", SERIAL_PRIMARY_KEY) :: DATABASE_SCHEMA →
  tbl_rows tb = [] →
  ∃ w', retrieve query w = (Return [], w').
Proof.
  intros Hspec Hf Hlt Hv Hext Htb Hcols Hrows.
  destruct (retrieve_calm query w tb query_embedding) as (w' & ->);
    [done.. | by rewrite Hrows |].
  exists w'. rewrite Hrows.
  destruct (Hspec (Row float)
              (λ r, l2_distance (row_embedding r) query_embedding) [])
    as [Hperm _].
  apply Permutation_nil_r in Hperm. by rewrite Hperm.
Qed.

(** ** The constructor *)

Lemma pooled_Return_txn {X Y} (prefix : Py World X) label
    (body : X → Py Frame Y) (w w' : World) y :
  preserves (keeps conn_pool) prefix →
  (∀ x, preserves same_connection (body x)) →
  (∀ x, preserves (in_frame (keeps conn_pool)) (body x)) →
  pooled prefix label body w = (Return y, w') → txn w' = None.
Proof.
  intros Hp Hb1 Hb2. rewrite pooled_run by done.
  destruct (prefix w) as [[x|e] w1]; [|done].
  destruct (getconn w1) as [[c|e] w2] eqn:Eg; [|done].
  apply getconn_Return in Eg as [Hu _].
  specialize (Hb2 x {| connection := Some c; world := w2 |}).
  unfold in_frame, keeps in Hb2.
  destruct (body x _) as [[y'|e] fr3]; [|done]. simpl in Hb2.
  intros [= _ <-]. unfold putconn.
  rewrite bool_decide_eq_true_2; [done|]. rewrite Hb2, Hu. set_solver.
Qed.

(** X15. [DataStore()] starts from nothing.  With no call failing, the
    constructor returns and leaves a pool of at least 1 and at most 10
    connections holding one opened connection, idle, and none in use; no
    transaction open; and the table with the identifier column followed by
    the columns of [DATABASE_SCHEMA] and without rows, whatever the table
    held before. *)
Theorem DataStore_starts_empty (w : World) :
  faults w = [] →
  ∃ w' tb,
    DataStore w = (Return (), w') ∧
    conn_pool w' =
      {| minconn := 1; maxconn := 10; idle := [0]; used := []; opened := 1 |} ∧
    txn w' = None ∧
    tables (committed w') !! TABLE_NAME = Some tb ∧
    tbl_cols tb = ("id", SERIAL_PRIMARY_KEY) :: DATABASE_SCHEMA ∧
    tbl_rows tb = [].
Proof.
  intros Hf.
  set (p := {| minconn := 1; maxconn := 10; idle := [0]; used := [];
               opened := 1 |}).
  set (w1 := set_conn_pool p (set_trace (trace w ++ [EvConnect]) w)).
  assert (DataStore w = _create_table w1) as ->.
  { unfold DataStore, _get_connection_pool, SimpleConnectionPool.
    cbn [open_idle]. unfold bind, external, emit, ret, set_pool.
    rewrite Hf. done. }
  destruct (_create_table_calm w1) as (w2 & tb & Hrun & _ & _ & _ & Htb);
    [done | simpl; lia |].
  exists w2, tb. split; [done|]. split; [|split; [|done]].
  - assert (conn_pool (_create_table w1).2 = conn_pool w1) as Hp.
    { rewrite _create_table_pooled.
      eapply pooled_restores_pool; [intros; pooled_hyps..|done|simpl; lia]. }
    by rewrite Hrun in Hp.
  - revert Hrun. rewrite _create_table_pooled.
    apply pooled_Return_txn; intros; pooled_hyps.
Qed.

(** ** Ingestion when nothing fails *)

Lemma embedding_loop_calm chunks (w : World) :
  faults w = [] →
  Forall (λ chunk, ∃ vector, last (get_embeddings [chunk]) = Some vector ∧
                             length vector = 768) chunks →
  ∃ pairs w1,
    for_each (λ curr_chunk,
        let! curr_embedding := text_embedding curr_chunk in
        ret {| te_text := curr_chunk; te_embedding := curr_embedding |})
      chunks w = (Return pairs, w1) ∧
    faults w1 = [] ∧
    Forall (λ p, length (te_embedding p) = 768) pairs.
Proof.
  intros Hf Hall. revert w Hf.
  induction Hall as [|c chunks (v & Hv & Hlen) _ IH]; intros w Hf.
  { by exists [], w. }
  destruct (text_embedding_calm c w v Hf Hv) as (w1 & He & Hf1 & _).
  destruct (IH w1 Hf1) as (pairs & w2 & Hloop & Hf2 & Hlens).
  exists ({| te_text := c; te_embedding := v |} :: pairs), w2.
  split; [|split; [done | by constructor]].
  cbn [for_each]. unfold bind at 1. unfold bind at 1. rewrite He. cbn [ret].
  unfold bind at 1. by rewrite Hloop.
Qed.

Lemma insert_calm page (w : World) tb :
  faults w = [] →
  tables (working w) !! TABLE_NAME = Some tb →
  tbl_cols tb = ("id", SERIAL_PRIMARY_KEY) :: DATABASE_SCHEMA →
  Forall (λ v : string * list float, length v.2 = 768) page →
  ∃ w1 tb1,
    cursor_execute [InsertValues TABLE_NAME (DATABASE_SCHEMA.*1) page] w
      = (Return [], w1) ∧
    faults w1 = [] ∧
    tables (working w1) !! TABLE_NAME = Some tb1 ∧
    tbl_cols tb1 = ("id", SERIAL_PRIMARY_KEY) :: DATABASE_SCHEMA.
Proof.
  intros Hf Htb Hcols Hdims.
  destruct (begin_calm w Hf) as (w1 & Hb & Hf1 & Hw1 & _).
  set (w2 := set_trace
               (trace w1 ++
                [EvExecute [InsertValues TABLE_NAME (DATABASE_SCHEMA.*1) page]])
               w1).
  assert (working w2 = working w) as Hw2 by done.
  assert (forallb (λ v : string * list float, length v.2 =? 768) page = true)
    as Hok.
  { apply forallb_forall. intros v Hv. apply Nat.eqb_eq.
    rewrite Forall_forall in Hdims. apply Hdims. by apply list_elem_of_In. }
  unfold cursor_execute. rewrite (bind_Return _ _ _ _ _ Hb).
  rewrite (bind_Return _ _ w1 () w2) by done.
  rewrite (bind_Return _ _ w2 () w2) by (by apply external_calm).
  cbn [run_script]. unfold bind, exec_stmt. rewrite Hw2, Htb, Hcols.
  cbn [lookup_col fmap list_fmap fst DATABASE_SCHEMA String.eqb Ascii.eqb
       Bool.eqb]. cbn. rewrite Hok.
  eexists _, _. split; [reflexivity|]. split; [done|].
  split; [unfold working, with_table; cbn; apply lookup_insert_eq|].
  done.
Qed.

Lemma execute_pages_calm pgs (w : World) tb :
  faults w = [] →
  tables (working w) !! TABLE_NAME = Some tb →
  tbl_cols tb = ("id", SERIAL_PRIMARY_KEY) :: DATABASE_SCHEMA →
  Forall (Forall (λ v : string * list float, length v.2 = 768)) pgs →
  ∃ w1, execute_pages TABLE_NAME (DATABASE_SCHEMA.*1) pgs w = (Return (), w1) ∧
        faults w1 = [].
Proof.
  intros Hf Htb Hcols Hall. revert w tb Hf Htb Hcols.
  induction Hall as [|page pgs Hpage _ IH]; intros w tb Hf Htb Hcols.
  { by exists w. }
  destruct (insert_calm page w tb Hf Htb Hcols Hpage)
    as (w1 & tb1 & Hins & Hf1 & Htb1 & Hcols1).
  destruct (IH w1 tb1 Hf1 Htb1 Hcols1) as (w2 & Hrest & Hf2).
  exists w2. split; [|done]. cbn [execute_pages].
  by rewrite (bind_Return _ _ _ _ _ Hins).
Qed.

Lemma ingest_calm text (w : World) tb chunks :
  faults w = [] →
  length (used (conn_pool w)) < maxconn (conn_pool w) →
  split_text the_text_splitter text = Return chunks →
  Forall (λ chunk, ∃ vector, last (get_embeddings [chunk]) = Some vector ∧
                             length vector = 768) chunks →
  tables (working w) !! TABLE_NAME = Some tb →
  tbl_cols tb = ("id", SERIAL_PRIMARY_KEY) :: DATABASE_SCHEMA →
  ∃ w', ingest text w = (Return (), w').
Proof.
  intros Hf Hlt Hsplit Hvecs Htb Hcols.
  assert (preserves (keeps txn) (get_text_embedding_pairs text)) as Hx by preserve.
  assert (preserves (keeps committed) (get_text_embedding_pairs text)) as Hc
    by preserve.
  assert (preserves (keeps conn_pool) (get_text_embedding_pairs text)) as Hp
    by preserve.
  specialize (Hx w). specialize (Hc w). specialize (Hp w). unfold keeps in *.
  destruct (get_text_embedding_pairs_run text w) as (w0 & [_ Hf0] & Hrun).
  rewrite Hsplit in Hrun.
  match type of Hrun with _ = for_each _ _ ?w0' =>
    destruct (embedding_loop_calm chunks w0') as (pairs & w1 & Hloop & Hf1 & Hlens);
      [simpl; congruence | done |] end.
  rewrite Hloop in Hrun. rewrite Hrun in Hx, Hc, Hp. cbn [snd] in *.
  destruct (getconn_calm w1 Hf1) as (c & w2 & Hg & Hf2 & _); [by rewrite Hp|].
  apply getconn_store in Hg as Hs2. destruct Hs2 as [Hc2 Hx2].
  assert (working w2 = working w) as Hw2
    by (etrans; apply working_eq; done).
  destruct (execute_pages_calm (paginate (pair_data <$> pairs) 100) w2 tb)
    as (w3 & Hpages & Hf3); [done | by rewrite Hw2 | done | |].
  { apply Forall_concat. rewrite concat_paginate. apply Forall_fmap.
    eapply Forall_impl; [exact Hlens|]. done. }
  set (w4 := set_trace
               (trace w3 ++ [EvLog "INFO" "Updated table with embedding pairs"])
               w3).
  destruct (commit_calm w4) as (w5 & Hcm & _); [done|].
  exists (putconn c w5).2.
  rewrite ingest_pooled, pooled_run; [|intros; pooled_hyps..].
  rewrite Hrun, Hg.
  unfold ingest_body, with_connection, with_cursor, bind, lift, load_connection,
    execute_values, logger_info, emit, ret.
  cbn [connection world]. fold (@pair_data float). rewrite Hpages.
  cbn [connection world fst snd]. fold w4. rewrite Hcm. done.
Qed.

(** X16. With the pool not exhausted and no call failing, [ingest] returns
    whenever the table is there with its columns and the service gives, for
    every chunk of the text, an embedding of 768 entries, the width of the
    [embedding] column. *)
Theorem ingest_returns text (w : World) tb chunks :
  faults w = [] →
  length (used (conn_pool w)) < maxconn (conn_pool w) →
  split_text the_text_splitter text = Return chunks →
  Forall (λ chunk, ∃ vector, last (get_embeddings [chunk]) = Some vector ∧
                             length vector = 768) chunks →
  tables (working w) !! TABLE_NAME = Some tb →
  tbl_cols tb = ("id", SERIAL_PRIMARY_KEY) :: DATABASE_SCHEMA →
  ∃ w', ingest text w = (Return (), w').
Proof. apply ingest_calm. Qed.

(** ** The query is embedded first *)

Lemma guarded_retrieve_embeds_nothing query_embedding :
  preserves (in_frame (extends (λ ev, negb (is_embed_event ev))))
    (guarded (error_label (OpRetrieve "")) (retrieve_body query_embedding)).
Proof. unfold guarded. preserve. Qed.

(** X17. [retrieve] asks for one embedding at most, that of the query
    alone, and asks before it does anything else: whatever happens, what it
    adds to the trace is nothing, or the request for the query followed by
    events none of which is an embedding request. *)
Theorem retrieve_embeds_the_query_first query (w : World) :
  trace (retrieve query w).2 = trace w ∨
  ∃ evs, trace (retrieve query w).2 = trace w ++ embed_request query :: evs ∧
         Forall (λ ev, is_embed_event ev = false) evs.
Proof.
  rewrite retrieve_pooled. unfold pooled. rewrite call_bind_lift.
  destruct (text_embedding_cases query w)
    as [(e & w1 & -> & [Ht|Ht]) | (qv & w1 & -> & _ & Ht)]; simpl.
  - by left.
  - right. exists []. by rewrite Ht.
  - right.
    destruct (guarded_retrieve_embeds_nothing qv
                {| connection := None; world := w1 |}) as (evs & Hevs & Hq).
    unfold error_label in *.
    destruct (guarded _ _ _) as [r fr]. simpl in *. exists evs.
    rewrite Hevs, Ht, <- app_assoc. split; [done|].
    eapply Forall_impl; [exact Hq|]. intros ev. simpl.
    by destruct (is_embed_event ev).
Qed.
End Theory.

(** * Reading the document *)

Section ReadPdfTheory.
Context {Page : Type} {pdf : PdfLibrary Page}.

Lemma append_assoc (s1 s2 s3 : string) : (s1 +:+ s2) +:+ s3 = s1 +:+ (s2 +:+ s3).
Proof.
  induction s1 as [|c s1 IH]; [done|].
  change (String c ((s1 +:+ s2) +:+ s3) = String c (s1 +:+ (s2 +:+ s3))).
  by f_equal.
Qed.

Lemma append_empty (s : string) : s +:+ "" = s.
Proof.
  induction s as [|c s IH]; [done|].
  change (String c (s +:+ "") = String c s). by f_equal.
Qed.

Lemma read_pages_Return text (pages : list Page) texts :
  Forall2 (λ page page_text, extract_text page = Return page_text) pages texts →
  read_pages text pages = Return (text +:+ foldr String.append "" texts).
Proof.
  intros Hall. revert text.
  induction Hall as [|page t pages texts Ht _ IH]; intros text; simpl.
  - by rewrite append_empty.
  - rewrite Ht, IH. by rewrite append_assoc.
Qed.

Lemma read_pages_Raise text (pages : list Page) e :
  read_pages text pages = Raise e ↔
  ∃ before page after,
    pages = before ++ page :: after ∧
    Forall (λ p, ∃ page_text, extract_text p = Return page_text) before ∧
    extract_text page = Raise e.
Proof.
  revert text. induction pages as [|page pages IH]; intros text; simpl.
  - split; [done|]. intros (before & p & after & H & _). by destruct before.
  - destruct (extract_text page) as [t|e'] eqn:Ep.
    + rewrite IH. split.
      * intros (before & p & after & -> & Hb & Hp).
        exists (page :: before), p, after. split; [done|].
        split; [constructor; eauto | done].
      * intros (before & p & after & H & Hb & Hp).
        destruct before as [|p0 before]; simpl in H.
        -- injection H as <- _. congruence.
        -- injection H as <- ->. inversion Hb; subst. by exists before, p, after.
    + split.
      * intros [= ->]. exists [], page, pages. by repeat split.
      * intros (before & p & after & H & Hb & Hp).
        destruct before as [|p0 before]; simpl in H.
        -- injection H as <- _. congruence.
        -- injection H as <- _. inversion Hb as [|?? [t Ht] _]; subst. congruence.
Qed.

(** X18. [read_pdf] returns the texts of the pages of the document, in the
    order of the pages, one after the other with nothing between two pages:
    no newline, no space.  A document without pages gives the empty text. *)
Theorem read_pdf_appends_the_pages file_path (pages : list Page) texts :
  reader_pages file_path = Return pages →
  Forall2 (λ page page_text, extract_text page = Return page_text) pages texts →
  read_pdf file_path = Return (foldr String.append "" texts).
Proof.
  intros Hopen Hall. unfold read_pdf. rewrite Hopen.
  by rewrite (read_pages_Return "" pages texts Hall).
Qed.

(** X19. [read_pdf] raises exactly when the file cannot be opened as a PDF,
    and then with that exception, or when the text of a page cannot be
    extracted, and then with the exception of the first such page: the text
    of the pages before it is lost. *)
Theorem read_pdf_raises file_path e :
  read_pdf file_path = Raise e ↔
  reader_pages file_path = Raise e ∨
  ∃ before page after,
    reader_pages file_path = Return (before ++ page :: after) ∧
    Forall (λ p, ∃ page_text, extract_text p = Return page_text) before ∧
    extract_text page = Raise e.
Proof.
  unfold read_pdf. destruct (reader_pages file_path) as [pages|e'].
  - rewrite read_pages_Raise. split.
    + intros (before & page & after & -> & H). right. by exists before, page, after.
    + intros [?|(before & page & after & [= ->] & H)]; [done|].
      by exists before, page, after.
  - split; [intros [= ->]; by left|].
    intros [[= ->]|(before & page & after & ? & _)]; done.
Qed.

End ReadPdfTheory.

(** * The model at work *)

Section DemoEngines.

Lemma StronglySorted_weaken {A} (R R' : relation A) (l : list A) :
  (∀ a b, R a b → R' a b) → StronglySorted R l → StronglySorted R' l.
Proof.
  intros HR. induction 1 as [|a l _ IH Hall]; constructor; [done|].
  eapply Forall_impl; [exact Hall | apply HR].
Qed.

Lemma by_key_total {A} (key : A → Z) : Total (Demo.by_key key).
Proof. intros a b. unfold Demo.by_key. lia. Qed.

Lemma by_key_transitive {A} (key : A → Z) : Transitive (Demo.by_key key).
Proof. intros a b c. unfold Demo.by_key. lia. Qed.

Lemma merge_sort_by_key {A} (key : A → Z) (l : list A) :
  StronglySorted (λ a b, (key a <=? key b)%Z = true)
    (@merge_sort A (Demo.by_key key) (Demo.by_key_dec key) l).
Proof.
  eapply StronglySorted_weaken;
    [|apply (@StronglySorted_merge_sort A (Demo.by_key key) (Demo.by_key_dec key)
               (by_key_transitive key) (by_key_total key))].
  intros a b. unfold Demo.by_key. apply Z.leb_le.
Qed.

Lemma services_order_by_spec : order_by_spec Demo.services.
Proof.
  intros A key l. split; [apply merge_sort_Permutation | apply merge_sort_by_key].
Qed.


End DemoEngines.

Section Instances.
Import Demo.

Local Abbreviation World := (World Z).

(** ** Small runs *)

Example join_chunks : join nl ["a"; "b"; "c"] = "a" +:+ nl +:+ "b" +:+ nl +:+ "c".
Proof. reflexivity. Qed.

Example join_empty : join nl [] = "".
Proof. reflexivity. Qed.

Example strip_response : strip (" R0" +:+ nl) = "R0".
Proof. reflexivity. Qed.

Example strip_keeps_inner : strip ("  a b " +:+ nl +:+ "c  ") = "a b " +:+ nl +:+ "c".
Proof. reflexivity. Qed.

Example prompt_for_empty_history :
  prompt_template_format "" (join nl []) =
  "Refer to the following context to answer this query: " +:+ nl +:+ nl
  +:+ "Context: ".
Proof. reflexivity. Qed.

Example paginate_250 : length <$> paginate (replicate 250 0) 100 = [100; 100; 50].
Proof. by vm_compute. Qed.

Example paginate_57 : length <$> paginate (replicate 57 0) 100 = [57].
Proof. by vm_compute. Qed.

(** The column list of the logged creation query, as in the notebook's
    output. *)
Example creation_query_columns :
  join ", " ((λ '(col_name, col_type), col_name +:+ " " +:+ show_sql_type col_type)
               <$> DATABASE_SCHEMA)
  = "text_chunk varchar, embedding vector(768)".
Proof. by vm_compute. Qed.

(** After [DataStore()] and [ingest "ab"]: one connection, idle; two rows. *)
Example loaded_store :
  let w := loaded services "ab" in
  conn_pool w = {| minconn := 1; maxconn := 10; idle := [0]; used := [];
                   opened := 1 |} ∧
  (λ r, (row_id r, row_text_chunk r)) <$> committed_rows w
    = [(1%Z, "a"); (2%Z, "b")] ∧
  txn w = None.
Proof. repeat split; by vm_compute. Qed.

(** 150 chunks go out as two INSERTs; when the second fails, the hundred
    rows of the first are not kept either. *)
Example second_page_failure_keeps_nothing :
  let text := foldr (λ _ s, "a" +:+ s) "" (replicate 150 ()) in
  let e := DatabaseError "server closed the connection unexpectedly" in
  let w := with_script (replicate 301 None ++ [Some e]) (store services) in
  let out := ingest (ext := services) text w in
  out.1 = Raise e ∧
  length (filter (λ ev, Is_true match ev with EvExecute _ => true | _ => false end)
            (drop (length (trace w)) (trace out.2))) = 2 ∧
  committed_rows out.2 = [] ∧ committed out.2 = committed w.
Proof. repeat split; by vm_compute. Qed.

(** An embedding of the wrong width makes the INSERT fail, and nothing of
    the batch is kept. *)
Example wrong_width_is_rejected :
  let narrow := {| split_text := split_text (External := services);
                   get_embeddings := fmap (λ _, [0%Z]);
                   response_text := reply;
                   l2_distance := dist;
                   fle := Z.leb;
                   order_by := order_by (External := services) |} in
  let out := ingest (ext := narrow) "ab" (loaded services "ab") in
  out.1 = Raise (DatabaseError "wrong number of dimensions") ∧
  committed out.2 = committed (loaded services "ab").
Proof. split; by vm_compute. Qed.

(** ** The conversation turn (C1) *)

(** C1 at work: the second turn of a session, on the query [Q2]. *)
Lemma turn_context_witness :
  let w := after_Q1 in
  let w' := (turn (ext := services) "Q2" w).2 in
  turn (ext := services) "Q2" w = (Return (), w') ∧
  ∃ response_1 w1 similar_chunks w2 response_2,
    let model_input_1 := prompt_template_format "" (join nl (chat_history w)) in
    let model_input_2 :=
      prompt_template_format "Q2"
        (strip response_1 +:+ join nl similar_chunks) in
    send_message (ext := services) model_input_1 w = (Return response_1, w1) ∧
    retrieve (ext := services) "Q2" w1 = (Return similar_chunks, w2) ∧
    length similar_chunks ≤ 5 ∧
    (send_message (ext := services) model_input_2 w2).1 = Return response_2 ∧
    chat_session w' =
      chat_session w ++ [(model_input_1, response_1); (model_input_2, response_2)] ∧
    chat_history w' = chat_history w ++ ["Q2"].
Proof.
  assert (turn (ext := services) "Q2" after_Q1
          = (Return (), (turn (ext := services) "Q2" after_Q1).2)) as H
    by (vm_compute; reflexivity).
  split; [exact H | exact (turn_context (ext := services) "Q2" _ _ H)].
Defined.

(** C1 as stated fails.  With the history [["Q1"]] and the query ["Q2"],
    the context of the second message is not the refreshed context, a
    newline, and the chunks: the newline is not there. *)
Lemma context_has_no_separator :
  let w := after_Q1 in
  chat_history w = ["Q1"] ∧
  ∃ response_1 w1 similar_chunks w2,
    send_message (ext := services)
      (prompt_template_format "" (join nl ["Q1"])) w = (Return response_1, w1) ∧
    retrieve (ext := services) "Q2" w1 = (Return similar_chunks, w2) ∧
    strip response_1 = "R2" ∧ similar_chunks = ["a"; "b"] ∧
    fst <$> last (chat_session (turn (ext := services) "Q2" w).2)
      = Some (prompt_template_format "Q2" ("R2" +:+ "a" +:+ nl +:+ "b")) ∧
    fst <$> last (chat_session (turn (ext := services) "Q2" w).2)
      ≠ Some (prompt_template_format "Q2"
                (strip response_1 +:+ nl +:+ join nl similar_chunks)).
Proof.
  split; [by vm_compute|].
  eexists _, _, _, _. split; [vm_compute; reflexivity|].
  split; [vm_compute; reflexivity|].
  split; [by vm_compute|]. split; [done|].
  split; [by vm_compute|]. by vm_compute.
Qed.

(** ** The pool (C2) *)

(** C2 at work: [retrieve] on the store with its ten connections out. *)
Lemma exhausted_pool_raises_at_once_witness :
  let w := exhausted services in
  idle (conn_pool w) = [] ∧
  length (used (conn_pool w)) = maxconn (conn_pool w) ∧
  (∃ e w', run_op (ext := services) (OpRetrieve "b") w = (Raise e, w') ∧
           conn_pool w' = conn_pool w ∧ committed w' = committed w ∧
           txn w' = txn w) ∧
  (∀ w0 : World,
     match _get_connection_pool w0 with
     | (Return p, _) => minconn p = 1 ∧ maxconn p = 10
     | (Raise _, _) => True
     end).
Proof.
  assert (idle (conn_pool (exhausted services)) = []) as H1
    by (vm_compute; reflexivity).
  assert (length (used (conn_pool (exhausted services)))
          = maxconn (conn_pool (exhausted services))) as H2
    by (vm_compute; reflexivity).
  split; [exact H1|]. split; [exact H2|].
  exact (exhausted_pool_raises_at_once (ext := services) (OpRetrieve "b") _ H1 H2).
Defined.

(** C2 as stated fails.  With all ten connections out, each operation ends
    at once with an exception: the pool refuses, nothing waits. *)
Lemma exhausted_pool_does_not_block :
  let w := exhausted services in
  idle (conn_pool w) = [] ∧ length (used (conn_pool w)) = 10 ∧
  maxconn (conn_pool w) = 10 ∧
  (getconn w).1 = Raise (PoolError "connection pool exhausted") ∧
  (_create_table (ext := services) w).1 = Raise (UnboundLocalError "connection") ∧
  (ingest (ext := services) "ab" w).1 = Raise (UnboundLocalError "connection") ∧
  (retrieve (ext := services) "b" w).1 = Raise (UnboundLocalError "connection").
Proof. repeat split; by vm_compute. Qed.

(** ** Retrieval (C3) *)



(** ** Ingestion (C5) *)


(** ** Errors of the store (C6) *)



(** ** A failing turn (C7) *)

(** C7 at work: the chat service fails on the first message of a turn. *)
Lemma failed_turn_ends_session_witness :
  let e := ServiceError "503 Service Unavailable" in
  let w := with_script [Some e] (loaded services "ab") in
  let w' := (turn (ext := services) "Q1" w).2 in
  String.eqb "Q1" "quit" = false ∧
  turn_fails_with (ext := services) "Q1" w e w' ∧
  chat_loop (ext := services) ["Q1"; "Q2"; "quit"] w = (Raise e, w') ∧
  chat_history w' = chat_history w.
Proof.
  set (e := ServiceError "503 Service Unavailable").
  set (w := with_script [Some e] (loaded services "ab")).
  set (w' := (turn (ext := services) "Q1" w).2).
  assert (String.eqb "Q1" "quit" = false) as H1 by reflexivity.
  assert (turn_fails_with (ext := services) "Q1" w e w') as H2
    by (left; vm_compute; reflexivity).
  split; [exact H1|]. split; [exact H2|].
  exact (failed_turn_ends_session (ext := services) "Q1" ["Q2"; "quit"] w e w' H1 H2).
Defined.

(** C7 as stated fails.  The chat service fails on the first message of a
    session of two queries: the session ends there with that exception and the second
    query is never taken up, where without the failure both are. *)
Lemma chat_failure_ends_conversation :
  let e := ServiceError "503 Service Unavailable" in
  let w := loaded services "ab" in
  let failed := conversation (ext := services) ["Q1"; "Q2"; "quit"]
                  (with_script [Some e] w) in
  let fine := conversation (ext := services) ["Q1"; "Q2"; "quit"] w in
  failed.1 = Raise e ∧ chat_history failed.2 = [] ∧
  fine.1 = Return [] ∧ chat_history fine.2 = ["Q1"; "Q2"].
Proof. repeat split; by vm_compute. Qed.

(** ** Creating the table (C9) *)

(** C9 at work: the table is made again, twice, over a loaded store. *)
Lemma create_table_twice_witness :
  let w := loaded services "ab" in
  faults w = [] ∧
  length (used (conn_pool w)) < maxconn (conn_pool w) ∧
  ∃ w1 w2 tb1 tb2,
    _create_table (ext := services) w = (Return (), w1) ∧
    _create_table (ext := services) w1 = (Return (), w2) ∧
    tables (committed w1) !! TABLE_NAME = Some tb1 ∧
    tables (committed w2) !! TABLE_NAME = Some tb2 ∧
    tbl_cols tb1 = ("id", SERIAL_PRIMARY_KEY) :: DATABASE_SCHEMA ∧
    tbl_cols tb2 = tbl_cols tb1 ∧
    tbl_rows tb1 = [] ∧ tbl_rows tb2 = [].
Proof.
  assert (faults (loaded services "ab") = []) as H1 by (vm_compute; reflexivity).
  assert (length (used (conn_pool (loaded services "ab")))
          < maxconn (conn_pool (loaded services "ab"))) as H2
    by (vm_compute; lia).
  split; [exact H1|]. split; [exact H2|].
  exact (create_table_twice (ext := services) _ H1 H2).
Defined.

End Instances.

(** * The further properties at work *)

Section MoreInstances.
Import Demo.

Local Abbreviation World := (World Z).

(** X1 at work: the pairs of a text of two chunks. *)
Lemma pairs_follow_chunks_witness :
  let w := store services in
  let out := get_text_embedding_pairs (ext := services) "ab" w in
  let pairs := [{| te_text := "a"; te_embedding := embed "a" |};
                {| te_text := "b"; te_embedding := embed "b" |}] in
  out = (Return pairs, out.2) ∧
  split_text (External := services) the_text_splitter "ab"
    = Return (te_text <$> pairs) ∧
  Forall (λ p, last (get_embeddings (External := services) [te_text p])
               = Some (te_embedding p)) pairs.
Proof.
  set (w := store services).
  set (out := get_text_embedding_pairs (ext := services) "ab" w).
  set (pairs := [{| te_text := "a"; te_embedding := embed "a" |};
                 {| te_text := "b"; te_embedding := embed "b" |}]).
  assert (out = (Return pairs, out.2)) as H by (vm_compute; reflexivity).
  split; [exact H|].
  exact (pairs_follow_chunks (ext := services) "ab" w out.2 pairs H).
Defined.

(** X3 at work: a service that gives no embedding. *)
Lemma text_embedding_last_or_unbound_witness :
  let w := store Silent.mute in
  Forall (λ fault, fault = None) (take 2 (faults w)) ∧
  (text_embedding (ext := Silent.mute) "a" w).1
    = Raise (UnboundLocalError "vector").
Proof.
  assert (Forall (λ fault : option exn, fault = None)
            (take 2 (faults (store Silent.mute)))) as H
    by (vm_compute; constructor).
  split; [exact H|].
  exact (text_embedding_last_or_unbound (ext := Silent.mute) "a" _ H).
Defined.

(** X4 at work: the commit of [ingest] fails. *)
Lemma failed_operation_changes_nothing_witness :
  let e := DatabaseError "could not serialize access" in
  let w := with_script [None; None; None; None; None; Some e] (store services) in
  let w' := (run_op (ext := services) (OpIngest "ab") w).2 in
  run_op (ext := services) (OpIngest "ab") w = (Raise e, w') ∧
  committed w' = committed w.
Proof.
  set (e := DatabaseError "could not serialize access").
  set (w := with_script [None; None; None; None; None; Some e] (store services)).
  set (w' := (run_op (ext := services) (OpIngest "ab") w).2).
  assert (run_op (ext := services) (OpIngest "ab") w = (Raise e, w')) as H
    by (vm_compute; reflexivity).
  split; [exact H|].
  exact (failed_operation_changes_nothing (ext := services) (OpIngest "ab") w w' e H).
Defined.


(** X6 at work: a retrieval that fails in the SELECT. *)
Lemma retrieve_never_writes_witness :
  let e := DatabaseError "server closed the connection unexpectedly" in
  let w := with_script [None; None; None; Some e] (loaded services "ab") in
  txn w = None ∧
  committed (retrieve (ext := services) "a" w).2 = committed w ∧
  working (retrieve (ext := services) "a" w).2 = committed w.
Proof.
  set (e := DatabaseError "server closed the connection unexpectedly").
  set (w := with_script [None; None; None; Some e] (loaded services "ab")).
  assert (txn w = None) as H by (vm_compute; reflexivity).
  split; [exact H|].
  exact (retrieve_never_writes (ext := services) "a" w H).
Defined.

(** X7 at work: the empty text. *)
Lemma ingest_of_no_chunks_witness :
  let w := store services in
  split_text (External := services) the_text_splitter "" = Return [] ∧
  txn w = None ∧
  idle (conn_pool w) = [0] ∧
  ∃ w', ingest (ext := services) "" w = (Return (), w') ∧
        committed w' = committed w ∧
        trace w' =
          trace w ++
          [EvLog "INFO" "Number of chunks generated: 0"; EvGetconn 0;
           EvLog "INFO" "Updated table with embedding pairs"; EvPutconn 0].
Proof.
  assert (split_text (External := services) the_text_splitter "" = Return [])
    as H1 by reflexivity.
  assert (txn (store services) = None) as H2 by (vm_compute; reflexivity).
  assert (idle (conn_pool (store services)) = [0]) as H3
    by (vm_compute; reflexivity).
  split; [exact H1|]. split; [exact H2|]. split; [exact H3|].
  exact (ingest_of_no_chunks (ext := services) "" _ 0 [] H1 H2 H3).
Defined.


(** X9 at work: the same text ingested twice. *)
Lemma ingest_twice_appends_twice_witness :
  let w := store services in
  let w1 := (ingest (ext := services) "ab" w).2 in
  let w2 := (ingest (ext := services) "ab" w1).2 in
  txn w = None ∧
  ingest (ext := services) "ab" w = (Return (), w1) ∧
  ingest (ext := services) "ab" w1 = (Return (), w2) ∧
  row_text_chunk <$> committed_rows w2 = ["a"; "b"; "a"; "b"] ∧
  ∃ chunks1 chunks2,
    split_text (External := services) the_text_splitter "ab" = Return chunks1 ∧
    split_text (External := services) the_text_splitter "ab" = Return chunks2 ∧
    row_text_chunk <$> committed_rows w2 =
      (row_text_chunk <$> committed_rows w) ++ chunks1 ++ chunks2.
Proof.
  set (w := store services). set (w1 := (ingest (ext := services) "ab" w).2).
  set (w2 := (ingest (ext := services) "ab" w1).2).
  assert (txn w = None) as H1 by (vm_compute; reflexivity).
  assert (ingest (ext := services) "ab" w = (Return (), w1)) as H2
    by (vm_compute; reflexivity).
  assert (ingest (ext := services) "ab" w1 = (Return (), w2)) as H3
    by (vm_compute; reflexivity).
  split; [exact H1|]. split; [exact H2|]. split; [exact H3|].
  split; [vm_compute; reflexivity|].
  exact (ingest_twice_appends_twice (ext := services) "ab" "ab" w w1 w2 H1 H2 H3).
Defined.

(** X10 at work: three chunks ingested into the empty table, then a query. *)
Lemma retrieve_after_ingest_witness :
  let w := store services in
  let w1 := (ingest (ext := services) "abc" w).2 in
  let w2 := (retrieve (ext := services) "b" w1).2 in
  let res := ["b"; "c"; "a"] in
  order_by_spec services ∧
  txn w = None ∧
  ingest (ext := services) "abc" w = (Return (), w1) ∧
  retrieve (ext := services) "b" w1 = (Return res, w2) ∧
  ∃ chunks,
    split_text (External := services) the_text_splitter "abc" = Return chunks ∧
    let texts := (row_text_chunk <$> committed_rows w) ++ chunks in
    (∀ t, t ∈ res → t ∈ texts) ∧
    length res = min 5 (length texts) ∧
    (length texts ≤ 5 → res ≡ₚ texts).
Proof.
  set (w := store services). set (w1 := (ingest (ext := services) "abc" w).2).
  set (w2 := (retrieve (ext := services) "b" w1).2).
  assert (txn w = None) as H1 by (vm_compute; reflexivity).
  assert (ingest (ext := services) "abc" w = (Return (), w1)) as H2
    by (vm_compute; reflexivity).
  assert (retrieve (ext := services) "b" w1 = (Return ["b"; "c"; "a"], w2)) as H3
    by (vm_compute; reflexivity).
  split; [exact services_order_by_spec|].
  split; [exact H1|]. split; [exact H2|]. split; [exact H3|].
  exact (retrieve_after_ingest (ext := services) "abc" "b" w w1 w2 _
           services_order_by_spec H1 H2 H3).
Defined.

(** X11 at work: two queries, the sentinel, and a line that is never read,
    in a world whose history already holds a query. *)
Lemma conversation_ends_at_quit_witness :
  let w := after_Q1 in
  let w' := (conversation (ext := services) ["Q2"; "Q3"; "quit"; "Q4"] w).2 in
  conversation (ext := services) ["Q2"; "Q3"; "quit"; "Q4"] w
    = (Return ["Q4"], w') ∧
  chat_history w' = ["Q1"; "Q2"; "Q3"] ∧
  ∃ queries,
    ["Q2"; "Q3"; "quit"; "Q4"] = queries ++ "quit" :: ["Q4"] ∧
    Forall (λ query, query ≠ "quit") queries ∧
    chat_history w' = chat_history w ++ queries ∧
    length (chat_session w') = 2 * length queries.
Proof.
  set (w := after_Q1).
  set (w' := (conversation (ext := services) ["Q2"; "Q3"; "quit"; "Q4"] w).2).
  assert (conversation (ext := services) ["Q2"; "Q3"; "quit"; "Q4"] w
          = (Return ["Q4"], w')) as H by (vm_compute; reflexivity).
  split; [exact H|]. split; [vm_compute; reflexivity|].
  exact (conversation_ends_at_quit (ext := services) _ w w' _ H).
Defined.

(** X12 at work: the first turn of a session. *)
Lemma turn_dialogue_witness :
  let w := loaded services "ab" in
  let w' := (turn (ext := services) "Q1" w).2 in
  turn (ext := services) "Q1" w = (Return (), w') ∧
  ∃ similar_chunks evs,
    let model_input_1 := prompt_template_format "" (join nl (chat_history w)) in
    let response_1 := reply (chat_session w) model_input_1 in
    let model_input_2 :=
      prompt_template_format "Q1"
        (strip response_1 +:+ join nl similar_chunks) in
    let response_2 :=
      reply (chat_session w ++ [(model_input_1, response_1)]) model_input_2 in
    trace w' =
      trace w ++ EvChat model_input_1 :: evs ++
      [EvChat model_input_2;
       EvPrint (("Model : " +:+ strip response_2 +:+ nl +:+ nl) +:+ nl)] ∧
    Forall (λ ev, is_dialogue_event ev = false) evs.
Proof.
  set (w := loaded services "ab"). set (w' := (turn (ext := services) "Q1" w).2).
  assert (turn (ext := services) "Q1" w = (Return (), w')) as H
    by (vm_compute; reflexivity).
  split; [exact H|].
  exact (turn_dialogue (ext := services) "Q1" w w' H).
Defined.

(** X13 at work: seven rows stored, the query [c]. *)
Lemma retrieve_returns_witness :
  let w := loaded services "abcdefg" in
  let tb := {| tbl_cols := ("id", SERIAL_PRIMARY_KEY) :: DATABASE_SCHEMA;
               tbl_seq := 0; tbl_rows := committed_rows w |} in
  faults w = [] ∧
  length (used (conn_pool w)) < maxconn (conn_pool w) ∧
  last (get_embeddings (External := services) ["c"]) = Some (embed "c") ∧
  "vector" ∈ extensions (working w) ∧
  tables (working w) !! TABLE_NAME = Some tb ∧
  Forall (λ r, length (row_embedding r) = length (embed "c")) (tbl_rows tb) ∧
  ∃ w',
    retrieve (ext := services) "c" w =
    (Return
       (row_text_chunk <$>
          take 5 (order_by (External := services) (Row Z)
                    (λ r, dist (row_embedding r) (embed "c")) (tbl_rows tb))),
     w').
Proof.
  set (w := loaded services "abcdefg").
  set (tb := {| tbl_cols := ("id", SERIAL_PRIMARY_KEY) :: DATABASE_SCHEMA;
                tbl_seq := 0; tbl_rows := committed_rows w |}).
  assert (faults w = []) as H1 by (vm_compute; reflexivity).
  assert (length (used (conn_pool w)) < maxconn (conn_pool w)) as H2
    by (vm_compute; lia).
  assert (last (get_embeddings (External := services) ["c"]) = Some (embed "c"))
    as H3 by reflexivity.
  assert ("vector" ∈ extensions (working w)) as H4
    by (apply (bool_decide_unpack _); vm_compute; exact I).
  assert (tables (working w) !! TABLE_NAME = Some tb) as H5
    by (vm_compute; reflexivity).
  assert (Forall (λ r : Row Z, length (row_embedding r) = length (embed "c"))
            (tbl_rows tb)) as H6
    by (apply (bool_decide_unpack _); vm_compute; exact I).
  split; [exact H1|]. split; [exact H2|]. split; [exact H3|]. split; [exact H4|].
  split; [exact H5|]. split; [exact H6|].
  exact (retrieve_returns (ext := services) "c" w tb (embed "c")
           H1 H2 H3 H4 H5 eq_refl H6).
Defined.

(** X14 at work: a query on the store as [DataStore()] leaves it. *)
Lemma retrieve_from_empty_table_witness :
  let w := store services in
  let tb := {| tbl_cols := ("id", SERIAL_PRIMARY_KEY) :: DATABASE_SCHEMA;
               tbl_seq := 0; tbl_rows := [] |} in
  order_by_spec services ∧
  faults w = [] ∧
  length (used (conn_pool w)) < maxconn (conn_pool w) ∧
  last (get_embeddings (External := services) ["c"]) = Some (embed "c") ∧
  "vector" ∈ extensions (working w) ∧
  tables (working w) !! TABLE_NAME = Some tb ∧
  ∃ w', retrieve (ext := services) "c" w = (Return [], w').
Proof.
  set (w := store services).
  set (tb := {| tbl_cols := ("id", SERIAL_PRIMARY_KEY) :: DATABASE_SCHEMA;
                tbl_seq := 0; tbl_rows := @nil (Row Z) |}).
  assert (faults w = []) as H1 by (vm_compute; reflexivity).
  assert (length (used (conn_pool w)) < maxconn (conn_pool w)) as H2
    by (vm_compute; lia).
  assert (last (get_embeddings (External := services) ["c"]) = Some (embed "c"))
    as H3 by reflexivity.
  assert ("vector" ∈ extensions (working w)) as H4
    by (apply (bool_decide_unpack _); vm_compute; exact I).
  assert (tables (working w) !! TABLE_NAME = Some tb) as H5
    by (vm_compute; reflexivity).
  split; [exact services_order_by_spec|].
  split; [exact H1|]. split; [exact H2|]. split; [exact H3|]. split; [exact H4|].
  split; [exact H5|].
  exact (retrieve_from_empty_table (ext := services) "c" w tb (embed "c")
           services_order_by_spec H1 H2 H3 H4 H5 eq_refl eq_refl).
Defined.

(** X15 at work: the constructor run on a store that holds rows. *)
Lemma DataStore_starts_empty_witness :
  let w := loaded services "ab" in
  faults w = [] ∧
  committed_rows w ≠ [] ∧
  ∃ w' tb,
    DataStore (ext := services) w = (Return (), w') ∧
    conn_pool w' =
      {| minconn := 1; maxconn := 10; idle := [0]; used := []; opened := 1 |} ∧
    txn w' = None ∧
    tables (committed w') !! TABLE_NAME = Some tb ∧
    tbl_cols tb = ("id", SERIAL_PRIMARY_KEY) :: DATABASE_SCHEMA ∧
    tbl_rows tb = [].
Proof.
  assert (faults (loaded services "ab") = []) as H by (vm_compute; reflexivity).
  split; [exact H|]. split; [vm_compute; discriminate|].
  exact (DataStore_starts_empty (ext := services) _ H).
Defined.

(** X16 at work: a text of two chunks on the empty table. *)
Lemma ingest_returns_witness :
  let w := store services in
  let tb := {| tbl_cols := ("id", SERIAL_PRIMARY_KEY) :: DATABASE_SCHEMA;
               tbl_seq := 0; tbl_rows := [] |} in
  faults w = [] ∧
  length (used (conn_pool w)) < maxconn (conn_pool w) ∧
  split_text (External := services) the_text_splitter "ab" = Return ["a"; "b"] ∧
  Forall (λ chunk, ∃ vector,
            last (get_embeddings (External := services) [chunk]) = Some vector ∧
            length vector = 768) ["a"; "b"] ∧
  tables (working w) !! TABLE_NAME = Some tb ∧
  ∃ w', ingest (ext := services) "ab" w = (Return (), w').
Proof.
  set (w := store services).
  set (tb := {| tbl_cols := ("id", SERIAL_PRIMARY_KEY) :: DATABASE_SCHEMA;
                tbl_seq := 0; tbl_rows := @nil (Row Z) |}).
  assert (faults w = []) as H1 by (vm_compute; reflexivity).
  assert (length (used (conn_pool w)) < maxconn (conn_pool w)) as H2
    by (vm_compute; lia).
  assert (split_text (External := services) the_text_splitter "ab"
          = Return ["a"; "b"]) as H3 by reflexivity.
  assert (Forall (λ chunk, ∃ vector,
            last (get_embeddings (External := services) [chunk]) = Some vector ∧
            length vector = 768) ["a"; "b"]) as H4.
  { repeat constructor; eexists; (split; [reflexivity | vm_compute; reflexivity]). }
  assert (tables (working w) !! TABLE_NAME = Some tb) as H5
    by (vm_compute; reflexivity).
  split; [exact H1|]. split; [exact H2|]. split; [exact H3|]. split; [exact H4|].
  split; [exact H5|].
  exact (ingest_returns (ext := services) "ab" w tb ["a"; "b"]
           H1 H2 H3 H4 H5 eq_refl).
Defined.

(** X2 at work: the requests for a text of two chunks. *)
Lemma embedding_requests_follow_chunks_witness :
  let w := store services in
  ∃ k, k ≤ 2 ∧
    trace (get_text_embedding_pairs (ext := services) "ab" w).2 =
      trace w ++
      EvLog "INFO" ("Number of chunks generated: " +:+ pretty 2)
      :: (embed_request <$> take k ["a"; "b"]) ∧
    (∀ pairs, (get_text_embedding_pairs (ext := services) "ab" w).1
              = Return pairs → k = 2).
Proof.
  exact (embedding_requests_follow_chunks (ext := services) "ab" (store services)).
Defined.

(** X18 at work: a document of two pages. *)
Lemma read_pdf_appends_the_pages_witness :
  let pages := ["The first page"; "and the second."] in
  reader_pages (PdfLibrary := Paper.library) "abc.pdf" = Return pages ∧
  Forall2 (λ page page_text,
             extract_text (PdfLibrary := Paper.library) page = Return page_text)
    pages pages ∧
  read_pdf (pdf := Paper.library) "abc.pdf"
    = Return "The first pageand the second.".
Proof.
  set (pages := ["The first page"; "and the second."]).
  assert (reader_pages (PdfLibrary := Paper.library) "abc.pdf" = Return pages)
    as H1 by reflexivity.
  assert (Forall2 (λ page page_text,
                     extract_text (PdfLibrary := Paper.library) page
                     = Return page_text) pages pages) as H2
    by (repeat constructor).
  split; [exact H1|]. split; [exact H2|].
  exact (read_pdf_appends_the_pages (pdf := Paper.library) "abc.pdf" pages pages
           H1 H2).
Defined.

End MoreInstances.
